(** * The peer-network manager [Down] of [core-api-p2p]

    A shallow embedding of [packages/core-api-p2p/lib/down.js].

    The class keeps its registry in [this.peers], a JavaScript object used
    as a map from the peer's ip to its [Peer] object.  It is modelled by a
    finite map from strings to peer records.  Everything the class obtains
    from outside (the wall clock, [Math.random], [process.env], the slot
    calculator, the remote peers behind [ping], [getPeers], [postBlock] and
    [downloadBlocks]) is read from an environment [Env], indexed by a
    counter of the interactions made so far, so that two successive calls
    may answer differently.  Methods that call themselves without a bound
    take a recursion budget and answer [OutOfFuel] once it is used up.

    An asynchronous method is followed from its call to the settlement of
    the promise it returns, no other method of the instance running in
    between; where a method waits for several requests at once (the sweep
    and the broadcast), the order in which they settle is a parameter. *)

From Stdlib Require Import ZArith NArith QArith Qround List String Ascii Lia.
From Stdlib Require Import Sorting.Permutation Sorting.Sorted DecimalString DecimalN.
From stdpp Require Import gmap strings list fin_maps sorting.

Local Open Scope string_scope.
Local Open Scope list_scope.
Local Open Scope Z_scope.

(** ** JavaScript primitives used by the class *)

Module JS.

(** [Number.prototype.toString] on a non-negative integer (exact below
    10^21, far above any block height). *)
Definition ToString (n : N) : string := NilZero.string_of_uint (N.to_uint n).

(** The comparison [Array.prototype.sort] applies when it is given no
    comparator: both elements are converted to strings, which are then
    compared code unit by code unit. *)
Definition default_le (a b : N) : bool := String.leb (ToString a) (ToString b).

Fixpoint insert_by {A} (le : A → A → bool) (x : A) (l : list A) : list A :=
  match l with
  | [] => [x]
  | y :: l' => if le x y then x :: l else y :: insert_by le x l'
  end.

(** A stable sort for an arbitrary comparison. *)
Definition sort_by {A} (le : A → A → bool) (l : list A) : list A :=
  foldr (insert_by le) [] l.

(** [array.sort()] on an array of numbers. *)
Definition sort (l : list N) : list N := sort_by default_le l.

(** [array.sort((a, b) => a - b)]: the numeric ascending order. *)
Definition sort_numeric (l : list N) : list N := sort_by N.leb l.

(** Truncation of a number toward zero. *)
Definition trunc (q : Q) : Z := if Qle_bool 0 q then Qfloor q else Qceiling q.

(** [ToInt32], the conversion behind [x << 0] and [~~x]. *)
Definition ToInt32 (z : Z) : Z := (z + 2 ^ 31) mod 2 ^ 32 - 2 ^ 31.

(** [n * Math.random() << 0] *)
Definition scale_random (n : nat) (r : Q) : Z :=
  ToInt32 (trunc (inject_Z (Z.of_nat n) * r)).

(** [~~(n / 2)] for an array length [n]. *)
Definition half (n : nat) : Z := ToInt32 (trunc (Z.of_nat n # 2)).

(** [array[i]]: [undefined] outside of the array. *)
Definition index {A} (l : list A) (i : Z) : option A :=
  if (i <? 0)%Z then None else l !! Z.to_nat i.

(** A property key made from a value that may be [undefined]. *)
Definition ToPropertyKey (k : option string) : string := default "undefined" k.

(** The result of a division of two array lengths. *)
Inductive number : Type :=
| NaN : number
| Infinity : number
| Num (q : Q) : number.

(** [a / b] for two array lengths: [0 / 0] is [NaN]. *)
Definition div_lengths (a b : nat) : number :=
  match b with
  | O => match a with O => NaN | S _ => Infinity end
  | S _ => Num (Z.of_nat a # Pos.of_nat b)
  end.

End JS.

(** ** Data model *)

(** The state a peer reported at its last successful [ping].  A field the
    peer never reported is [undefined]. *)
Record PeerState : Type := {
  height : option N;
  currentSlot : option Z;
  forgingAllowed : bool
}.

(** The fields of a [Peer] object that the class reads. *)
Record Peer : Type := {
  ip : string;
  port : Z;
  ban : Z;
  delay : option Z;
  downloadSize : option Z;
  state : PeerState
}.

(** An entry of [config.peers.list]. *)
Record SeedPeer : Type := { seed_ip : string; seed_port : Z }.

(** The configuration: [config.peers.list] ([None] when the property is
    not defined), [config.server.port] and [config.network.nethash]. *)
Record Config : Type := {
  peers_list : option (list SeedPeer);
  server_port : Z;
  network_nethash : string
}.

(** The object handed to [acceptNewPeer]. *)
Record Candidate : Type := { cand_ip : string; cand_port : Z; cand_nethash : string }.

(** An element of the list a remote peer answers to [getPeers]. *)
Record PeerInfo : Type := { info_ip : string; info_port : Z; info_status : string }.

Record Block : Type := { block_height : N; block_id : string }.

(** Errors are [Error] objects carrying a message. *)
Inductive Error : Type := mkError (message : string).

Definition NoSeedPeers : Error := mkError "No seed peers defined in config/peers.json".
Definition WrongNetwork : Error := mkError "Request is made on the wrong network".
Definition LocalhostRejected : Error := mkError "Localhost peer not accepted".
Definition TypeError : Error := mkError "TypeError".

(** What a successful [ping] stores in the peer. *)
Record PingReply : Type := { reply_state : PeerState; reply_delay : Z }.

(** The instance: its configuration and its registry [this.peers].  The
    keys of the registry are the ip strings under which peers were stored;
    the properties every object inherits from its prototype are not
    modelled. *)
Record Down : Type := { config : Config; peers : gmap string Peer }.

(** The instance together with the number of interactions with the outside
    made so far. *)
Record Sys : Type := { self : Down; tick : nat }.

(** ** The environment *)

(** Modelled from the spec: [./peer] and [./utils/is-localhost] are not part
    of the sources at hand.  Following sections 3, 4.2 and 6 of the
    specification a peer answers [ping] with its reported state and the
    observed latency or fails, answers [getPeers] with a list of adverts or
    fails, acknowledges [postBlock] or fails, and answers [downloadBlocks]
    with a list of blocks or fails.  The fields of a new [Peer] other than
    its ip and port, and the predicate [isLocalhost], are left open. *)
Record Env : Type := {
  ARK_ENV : option string;
  Date_getTime : nat → Z;
  Math_random : nat → Q;
  getSlotNumber : nat → Z;
  isLocalhost : string → bool;
  fresh_ban : Z;
  fresh_delay : option Z;
  fresh_downloadSize : option Z;
  fresh_state : PeerState;
  Peer_ping : nat → Peer → option Z → Error + PingReply;
  Peer_getPeers : nat → Peer → Error + list PeerInfo;
  Peer_postBlock : nat → Peer → Block → Error + unit;
  Peer_downloadBlocks : nat → Peer → N → Error + list Block
}.

(** [new Peer(ip, port, config)] *)
Definition Peer_new (e : Env) (i : string) (p : Z) : Peer :=
  {| ip := i; port := p; ban := fresh_ban e; delay := fresh_delay e;
     downloadSize := fresh_downloadSize e; state := fresh_state e |}.

(** The effect of a successful [ping] on the peer object. *)
Definition apply_ping (r : PingReply) (p : Peer) : Peer :=
  {| ip := ip p; port := port p; ban := ban p; delay := Some (reply_delay r);
     downloadSize := downloadSize p; state := reply_state r |}.

Definition set_peers (ps : gmap string Peer) (s : Sys) : Sys :=
  {| self := {| config := config (self s); peers := ps |}; tick := tick s |}.

Definition set_tick (t : nat) (s : Sys) : Sys := {| self := self s; tick := t |}.

(** [process.env.ARK_ENV === 'testnet'] *)
Definition is_testnet (e : Env) : bool := bool_decide (ARK_ENV e = Some "testnet").

(** [Object.keys(this.peers)] and [Object.values(this.peers)].  JavaScript
    lists the keys in the order of their insertion, the finite map in an
    order of its own; both list every key once, and the two lists of one
    map agree position by position. *)
Definition Object_keys (ps : gmap string Peer) : list string := (map_to_list ps).*1.
Definition Object_values (ps : gmap string Peer) : list Peer := (map_to_list ps).*2.

(** ** Outcomes of a call *)

Inductive outcome (A : Type) : Type :=
| Return (a : A) (s : Sys)
| Throw (err : Error) (s : Sys)
| OutOfFuel.
Arguments Return {A} a s.
Arguments Throw {A} err s.
Arguments OutOfFuel {A}.

Definition M (A : Type) : Type := Sys → outcome A.

Definition ret {A} (a : A) : M A := λ s, Return a s.
Definition throw {A} (err : Error) : M A := λ s, Throw err s.

Definition bind {A B} (m : M A) (k : A → M B) : M B :=
  λ s, match m s with
       | Return a s' => k a s'
       | Throw err s' => Throw err s'
       | OutOfFuel => OutOfFuel
       end.

(** [try { m } catch (error) { h error }] *)
Definition try_catch {A} (m : M A) (h : Error → M A) : M A :=
  λ s, match m s with
       | Return a s' => Return a s'
       | Throw err s' => h err s'
       | OutOfFuel => OutOfFuel
       end.

Declare Scope down_scope.
Delimit Scope down_scope with down.
Notation "'let*' x ':=' m 'in' k" := (bind m (λ x, k))
  (at level 10, x name, m at level 100, k at level 200) : down_scope.
Notation "'let*' ' p ':=' m 'in' k" := (bind m (λ x, match x with p => k end))
  (at level 10, p strict pattern, m at level 100, k at level 200) : down_scope.

(** One interaction with the outside: the answer is read at the current
    tick, which is then advanced. *)
Definition interact {A} (f : nat → A) : M A :=
  λ s, Return (f (tick s)) (set_tick (S (tick s)) s).

(** Awaiting a promise of a remote peer. *)
Definition await {A} (f : nat → Error + A) : M A :=
  λ s, match f (tick s) with
       | inr a => Return a (set_tick (S (tick s)) s)
       | inl err => Throw err (set_tick (S (tick s)) s)
       end.

Definition get_peers : M (gmap string Peer) := λ s, Return (peers (self s)) s.
Definition put_peers (ps : gmap string Peer) : M unit := λ s, Return tt (set_peers ps s).
Definition get_config : M Config := λ s, Return (config (self s)) s.

Local Open Scope down_scope.

(** ** The class [Down] *)

(** *** [constructor] *)

(** [this.peers[peer.ip] = new Peer(peer.ip, peer.port, config)] *)
Definition seed (e : Env) (ps : gmap string Peer) (peer : SeedPeer) : gmap string Peer :=
  <[seed_ip peer := Peer_new e (seed_ip peer) (seed_port peer)]> ps.

(** [list.forEach(peer => (this.peers[peer.ip] = new Peer(...)))] *)
Definition seed_all (e : Env) (l : list SeedPeer) (ps : gmap string Peer) : gmap string Peer :=
  foldl (seed e) ps l.

(** [peer.ip !== '127.0.0.1' || peer.port !== this.config.server.port] *)
Definition not_self (cfg : Config) (peer : SeedPeer) : bool :=
  negb (String.eqb (seed_ip peer) "127.0.0.1") || negb (Z.eqb (seed_port peer) (server_port cfg)).

Definition constructor (e : Env) (cfg : Config) : Error + Down :=
  match peers_list cfg with
  | None => inl NoSeedPeers
  | Some l =>
      inr {| config := cfg; peers := seed_all e (List.filter (not_self cfg) l) ∅ |}
  end.

(** *** [stop] *)

Definition stop : M unit := λ s, Return tt s.

(** *** [getNetworkHeight] *)

(** [peer.state.height] as a condition: [undefined] and [0] are falsy. *)
Definition has_height (p : Peer) : bool :=
  match height (state p) with
  | Some h => negb (N.eqb h 0)
  | None => false
  end.

Definition reported_height (p : Peer) : N := default 0%N (height (state p)).

Definition getNetworkHeight (ps : gmap string Peer) : option N :=
  let median := JS.sort (map reported_height (List.filter has_height (Object_values ps))) in
  JS.index median (JS.half (length median)).

(** *** [getPBFTForgingStatus] *)

(** [a >= b] on two numbers that may be [undefined]. *)
Definition ge_number (a b : option N) : bool :=
  match a, b with
  | Some x, Some y => N.leb y x
  | _, _ => false
  end.

Definition forging_ratio (networkHeight : option N) (slot : Z) (ps : gmap string Peer) : JS.number :=
  let syncedPeers :=
    List.filter (λ peer, bool_decide (currentSlot (state peer) = Some slot)) (Object_values ps) in
  let okForging :=
    length (List.filter (λ peer, forgingAllowed (state peer) && ge_number (height (state peer)) networkHeight)
                        syncedPeers) in
  JS.div_lengths okForging (length syncedPeers).

Definition getPBFTForgingStatus (e : Env) : M JS.number :=
  let* ps := get_peers in
  let networkHeight := getNetworkHeight ps in
  let* slot := interact (getSlotNumber e) in
  ret (forging_ratio networkHeight slot ps).

(** *** [getPeers] *)

Definition getPeers : M (list Peer) := λ s, Return (Object_values (peers (self s))) s.

(** *** [getRandomPeer] *)

(** [keys.filter(key => this.peers[key].ban < new Date().getTime())]: the
    clock is read once for every key.  The keys come from [Object.keys], so
    each of them has its peer; a key without one is dropped here and in the
    two filters below. *)
Fixpoint filter_not_banned (e : Env) (ps : gmap string Peer) (keys : list string) (t : nat)
  : list string * nat :=
  match keys with
  | [] => ([], t)
  | key :: keys' =>
      let keep := match ps !! key with
                  | Some p => bool_decide (ban p < Date_getTime e t)
                  | None => false
                  end in
      let '(r, t') := filter_not_banned e ps keys' (S t) in
      (if keep then key :: r else r, t')
  end.

(** [this.peers[key].delay < acceptableDelay] *)
Definition delay_below (ps : gmap string Peer) (acceptableDelay : Z) (key : string) : bool :=
  match ps !! key with
  | Some p => match delay p with
              | Some d => bool_decide (d < acceptableDelay)
              | None => false
              end
  | None => false
  end.

(** [if (acceptableDelay) keys = keys.filter(...)]: [undefined] and [0] are
    falsy. *)
Definition filter_delay (ps : gmap string Peer) (acceptableDelay : option Z) (keys : list string)
  : list string :=
  match acceptableDelay with
  | Some d => if Z.eqb d 0 then keys else List.filter (delay_below ps d) keys
  | None => keys
  end.

(** [keys[keys.length * Math.random() << 0]] *)
Definition pick_random (e : Env) (t : nat) (keys : list string) : option string :=
  JS.index keys (JS.scale_random (length keys) (Math_random e t)).

Fixpoint getRandomPeer (fuel : nat) (e : Env) (acceptableDelay : option Z) (s : Sys)
  : outcome Peer :=
  match fuel with
  | O => OutOfFuel
  | S fuel' =>
      let ps := peers (self s) in
      let '(keys, t) := filter_not_banned e ps (Object_keys ps) (tick s) in
      let keys := filter_delay ps acceptableDelay keys in
      let random := pick_random e t keys in
      match ps !! JS.ToPropertyKey random with
      | None =>
          (* delete this.peers[random]; this.p2p.checkOnline() *)
          let s1 := set_peers (delete (JS.ToPropertyKey random) ps) (set_tick (S (S t)) s) in
          getRandomPeer fuel' e None s1
      | Some randomPeer => Return randomPeer (set_tick (S t) s)
      end
  end.

(** *** [getRandomDownloadBlocksPeer] *)

(** [this.peers[key].downloadSize !== 100] *)
Definition not_full (ps : gmap string Peer) (key : string) : bool :=
  match ps !! key with
  | Some p => negb (bool_decide (downloadSize p = Some 100))
  | None => false
  end.

Definition getRandomDownloadBlocksPeer (fuel : nat) (e : Env) (s : Sys) : outcome Peer :=
  let ps := peers (self s) in
  let '(keys, t) := filter_not_banned e ps (Object_keys ps) (tick s) in
  let keys := List.filter (not_full ps) keys in
  let random := pick_random e t keys in
  match ps !! JS.ToPropertyKey random with
  | None =>
      let s1 := set_peers (delete (JS.ToPropertyKey random) ps) (set_tick (S t) s) in
      getRandomPeer fuel e None s1
  | Some randomPeer => Return randomPeer (set_tick (S t) s)
  end.

(** *** [discoverPeers] *)

(** The body of [list.forEach(peer => ...)]. *)
Definition register_advertised (e : Env) (ps : gmap string Peer) (peer : PeerInfo) : gmap string Peer :=
  if String.eqb (info_status peer) "OK"
     && negb (bool_decide (is_Some (ps !! info_ip peer)))
     && negb (isLocalhost e (info_ip peer))
  then <[info_ip peer := Peer_new e (info_ip peer) (info_port peer)]> ps
  else ps.

Fixpoint discoverPeers (fuel : nat) (e : Env) (s : Sys) : outcome (gmap string Peer) :=
  match fuel with
  | O => OutOfFuel
  | S fuel' =>
      match getRandomPeer fuel' e None s with
      | Return p s1 =>
          match Peer_getPeers e (tick s1) p with
          | inr list =>
              let ps := foldl (register_advertised e) (peers (self s1)) list in
              Return ps (set_peers ps (set_tick (S (tick s1)) s1))
          | inl _ => discoverPeers fuel' e (set_tick (S (tick s1)) s1)
          end
      | Throw _ s1 => discoverPeers fuel' e s1
      | OutOfFuel => OutOfFuel
      end
  end.

(** *** [cleanPeers] *)

(** What the sweep writes to the log. *)
Record SweepReport : Type := {
  checked : nat;
  responsive : nat;
  median_height : option N;
  pbft_status : JS.number
}.

(** The counters of the sweep next to the registry: [count] and
    [wrongpeers]. *)
Record Sweep : Type := { swept : gmap string Peer; count : nat; wrongpeers : nat }.

(** [fast ? 1000 : 5000] *)
Definition ping_timeout (fast : bool) : Z := if fast then 1000 else 5000.

(** The continuation of one callback of [keys.map(async (ip) => ...)] once
    its ping has settled.  The ping itself was started on the peer object
    that the registry [ps0] held under [ip] when the sweep began, at tick
    [t0]; a success updates that object, a failure (or a missing object,
    a [TypeError] inside the [try]) removes the key. *)
Definition sweep_settle (e : Env) (t0 : nat) (fast : bool) (ps0 : gmap string Peer)
    (acc : Sweep) (ip : string) : Sweep :=
  match ps0 !! ip with
  | Some p =>
      match Peer_ping e t0 p (Some (ping_timeout fast)) with
      | inr r =>
          {| swept := alter (apply_ping r) ip (swept acc);
             count := S (count acc); wrongpeers := wrongpeers acc |}
      | inl _ =>
          {| swept := delete ip (swept acc);
             count := count acc; wrongpeers := S (wrongpeers acc) |}
      end
  | None =>
      {| swept := delete ip (swept acc);
         count := count acc; wrongpeers := S (wrongpeers acc) |}
  end.

(** [cleanPeers(fast)], the pings settling in the order [order]. *)
Definition cleanPeers_ordered (e : Env) (fast : bool) (order : list string) : M SweepReport :=
  let* ps0 := get_peers in
  let keys := Object_keys ps0 in
  let max := length keys in
  let* acc := (λ s, Return (foldl (sweep_settle e (tick s) fast ps0)
                                  {| swept := ps0; count := 0; wrongpeers := 0 |} order)
                           (set_tick (S (tick s)) s)) in
  let* _ := put_peers (swept acc) in
  let* ps := get_peers in
  let* status := getPBFTForgingStatus e in
  ret {| checked := max; responsive := max - wrongpeers acc;
         median_height := getNetworkHeight ps; pbft_status := status |}.

(** [cleanPeers(fast)], the pings settling in the order they were sent. *)
Definition cleanPeers (e : Env) (fast : bool) : M SweepReport :=
  λ s, cleanPeers_ordered e fast (Object_keys (peers (self s))) s.

(** *** [acceptNewPeer] *)

(** [peer.ip === '::ffff:127.0.0.1' || peer.ip === '127.0.0.1'] *)
Definition is_loopback (i : string) : bool :=
  String.eqb i "::ffff:127.0.0.1" || String.eqb i "127.0.0.1".

Definition acceptNewPeer (e : Env) (peer : Candidate) : M unit :=
  λ s,
    let ps := peers (self s) in
    if bool_decide (is_Some (ps !! cand_ip peer)) || is_testnet e then Return tt s
    else if negb (String.eqb (cand_nethash peer) (network_nethash (config (self s))))
    then Throw WrongNetwork s
    else if is_loopback (cand_ip peer) then Throw LocalhostRejected s
    else
      let npeer := Peer_new e (cand_ip peer) (cand_port peer) in
      match Peer_ping e (tick s) npeer None with
      | inr r =>
          Return tt (set_peers (<[cand_ip peer := apply_ping r npeer]> ps)
                               (set_tick (S (tick s)) s))
      | inl _ => Return tt (set_tick (S (tick s)) s)
      end.

(** *** [downloadBlocks] *)

Fixpoint downloadBlocks (fuel : nat) (e : Env) (fromBlockHeight : N) (s : Sys)
  : outcome (list Block) :=
  match fuel with
  | O => OutOfFuel
  | S fuel' =>
      match getRandomDownloadBlocksPeer fuel' e s with
      | Return randomPeer s1 =>
          match Peer_ping e (tick s1) randomPeer None with
          | inr r =>
              let s2 := set_peers (alter (apply_ping r) (ip randomPeer) (peers (self s1)))
                                  (set_tick (S (tick s1)) s1) in
              (* return randomPeer.downloadBlocks(fromBlockHeight) *)
              await (λ t, Peer_downloadBlocks e t (apply_ping r randomPeer) fromBlockHeight) s2
          | inl _ => downloadBlocks fuel' e fromBlockHeight (set_tick (S (tick s1)) s1)
          end
      | Throw err s1 => Throw err s1
      | OutOfFuel => OutOfFuel
      end
  end.

(** *** [broadcastBlock] *)

(** The promise made by [Promise.all]: the values gathered so far and the
    number of promises still awaited, or its final state. *)
Inductive all_promise (A : Type) : Type :=
| Waiting (values : list (option A)) (remaining : nat)
| Fulfilled (values : list A)
| Rejected (err : Error).
Arguments Waiting {A} values remaining.
Arguments Fulfilled {A} values.
Arguments Rejected {A} err.

Definition Promise_all_start {A} (n : nat) : all_promise A :=
  match n with
  | O => Fulfilled []
  | S _ => Waiting (replicate n None) n
  end.

(** The reaction of [Promise.all] to the settlement of its [i]-th promise. *)
Definition Promise_all_settle {A} (pr : all_promise A) (ev : nat * (Error + A))
  : all_promise A :=
  match pr with
  | Waiting values remaining =>
      match ev.2 with
      | inl err => Rejected err
      | inr a =>
          let values' := <[ev.1 := Some a]> values in
          match remaining with
          | 1%nat => Fulfilled (omap id values')
          | _ => Waiting values' (pred remaining)
          end
      end
  | Fulfilled values => Fulfilled values
  | Rejected err => Rejected err
  end.

(** The sends started by [bpeers.map((peer) => peer.postBlock(...))], each
    with its position and its eventual result. *)
Definition block_sends (e : Env) (t : nat) (block : Block) (bpeers : list Peer)
  : list (nat * (Error + unit)) :=
  imap (λ i peer, (i, Peer_postBlock e t peer block)) bpeers.

(** [broadcastBlock(block)]: the state of the returned promise after the
    sends at the positions [settled] have settled, in that order. *)
Definition broadcastBlock (e : Env) (block : Block) (settled : list nat) (s : Sys)
  : all_promise unit * Sys :=
  let bpeers := Object_values (peers (self s)) in
  let sends := block_sends e (tick s) block bpeers in
  (foldl Promise_all_settle (Promise_all_start (length bpeers))
         (omap (λ i, sends !! i) settled),
   set_tick (S (tick s)) s).

(** The values [Promise.all] has gathered once the promises at the
    positions [l], out of [n], are fulfilled with an acknowledgement. *)
Definition gathered (l : list nat) (n : nat) : list (option unit) :=
  (λ j, if decide (j ∈ l) then Some tt else None) <$> seq 0 n.

(** *** [updateNetworkStatus] and [start] *)

(** [this.config.peers.list.forEach(peer => (this.peers[peer.ip] = new Peer(...)))] *)
Definition reseed (e : Env) : M unit :=
  let* cfg := get_config in
  let* ps := get_peers in
  match peers_list cfg with
  | Some l => put_peers (seed_all e l ps)
  | None => throw TypeError
  end.

(** The [try] block of [updateNetworkStatus]; it answers [true] when it
    ends in [return this.updateNetworkStatus()]. *)
Definition updateNetworkStatus_try (fuel : nat) (e : Env) : M bool :=
  let* _ := (if is_testnet e then ret tt
             else let* _ := discoverPeers fuel e in
                  let* _ := cleanPeers e false in
                  ret tt) in
  let* ps := get_peers in
  let* cfg := get_config in
  match peers_list cfg with
  | Some l =>
      if bool_decide (Z.of_nat (length (Object_keys ps)) < Z.of_nat (length l) - 1)
         && negb (is_testnet e)
      then let* _ := reseed e in ret true
      else ret false
  | None => throw TypeError
  end.

(** The [catch] block of [updateNetworkStatus], up to its
    [return this.updateNetworkStatus()]. *)
Definition updateNetworkStatus_catch (e : Env) (error : Error) : M bool :=
  let* _ := reseed e in ret true.

Fixpoint updateNetworkStatus (fuel : nat) (e : Env) (s : Sys) : outcome unit :=
  match fuel with
  | O => OutOfFuel
  | S fuel' =>
      match try_catch (updateNetworkStatus_try fuel' e) (updateNetworkStatus_catch e) s with
      | Return true s1 => updateNetworkStatus fuel' e s1
      | Return false s1 => Return tt s1
      | Throw err s1 => Throw err s1
      | OutOfFuel => OutOfFuel
      end
  end.

Definition start (fuel : nat) (e : Env) (networkStart : bool) : M unit :=
  if networkStart then ret tt else updateNetworkStatus fuel e.

(** ** The metrics as the specification words them *)

(** The heights of all peers with a known (non-zero) height, sorted
    numerically ascending, and of these the element at index
    [floor(count/2)]. *)
Definition networkHeight_spec (ps : gmap string Peer) : option N :=
  let heights := JS.sort_numeric (map reported_height (List.filter has_height (Object_values ps))) in
  heights !! (length heights / 2)%nat.

(** The peers whose reported current slot equals the local one. *)
Definition in_slot (slot : Z) (ps : gmap string Peer) : gmap string Peer :=
  filter (λ kp, currentSlot (state kp.2) = Some slot) ps.

(** A reported height is at least the network height; no height reaches
    an unknown network height. *)
Definition reaches (h networkHeight : option N) : Prop :=
  match h, networkHeight with
  | Some x, Some y => (y ≤ x)%N
  | _, _ => False
  end.

#[global] Instance reaches_dec h networkHeight : Decision (reaches h networkHeight).
Proof. destruct h, networkHeight; simpl; apply _. Defined.

(** Of these, the peers that are allowed to forge and whose height is at
    least the network height. *)
Definition may_forge (networkHeight : option N) (slot : Z) (ps : gmap string Peer)
  : gmap string Peer :=
  filter (λ kp, forgingAllowed (state kp.2) = true ∧ reaches (height (state kp.2)) networkHeight)
         (in_slot slot ps).

(** The probe of the sweep fails for this peer. *)
Definition probe_fails (e : Env) (t : nat) (fast : bool) (p : Peer) : bool :=
  match Peer_ping e t p (Some (ping_timeout fast)) with
  | inl _ => true
  | inr _ => false
  end.

(** What the sweep leaves of a registered peer: the peer as updated by its
    probe when the probe succeeds, nothing when it fails. *)
Definition probed (e : Env) (t : nat) (fast : bool) (p : Peer) : option Peer :=
  match Peer_ping e t p (Some (ping_timeout fast)) with
  | inr r => Some (apply_ping r p)
  | inl _ => None
  end.

(** The callback of the sweep for this key ends in its [catch]. *)
Definition key_fails (e : Env) (t : nat) (fast : bool) (ps0 : gmap string Peer) (ip : string)
  : bool :=
  match ps0 !! ip with
  | Some p => probe_fails e t fast p
  | None => true
  end.

(** ** Notions used to state properties of the registry *)

(** Every peer is stored under its own ip. *)
Definition keyed_by_ip (ps : gmap string Peer) : Prop :=
  ∀ key p, ps !! key = Some p → ip p = key.

(** The call ended, with a result or with an error, in the state [s']. *)
Definition ends_in {A} (o : outcome A) (s' : Sys) : Prop :=
  match o with
  | Return _ s => s = s'
  | Throw _ s => s = s'
  | OutOfFuel => False
  end.

(** The heights that count for the network height: those of the peers
    with a known height, in the order of [Object.values]. *)
Definition known_heights (ps : gmap string Peer) : list N :=
  map reported_height (List.filter has_height (Object_values ps)).



(** ** Sample data *)

Module Sample.

Definition no_state : PeerState :=
  {| height := None; currentSlot := None; forgingAllowed := false |}.

Definition pong : PingReply :=
  {| reply_state := {| height := Some 100%N; currentSlot := Some 7; forgingAllowed := true |};
     reply_delay := 20 |}.

Definition unresponsive : Error := mkError "Peer is unresponsive".

Definition genesis : Block := {| block_height := 1; block_id := "genesis" |}.

(** An environment given by the answers of the remote peers to [ping] and
    [postBlock]: the clock advances by one millisecond per reading,
    [Math.random] answers [0], the local slot is [7], no peer advertises
    another peer, and a new peer is not banned. *)
Definition env_with (ping : Peer → Error + PingReply) (post : Peer → Error + unit) : Env :=
  {| ARK_ENV := None;
     Date_getTime := λ t, 1000 + Z.of_nat t;
     Math_random := λ _, 0%Q;
     getSlotNumber := λ _, 7;
     isLocalhost := is_loopback;
     fresh_ban := 0;
     fresh_delay := None;
     fresh_downloadSize := None;
     fresh_state := no_state;
     Peer_ping := λ _ p _, ping p;
     Peer_getPeers := λ _ _, inr [];
     Peer_postBlock := λ _ p _, post p;
     Peer_downloadBlocks := λ _ _ _, inr [genesis] |}.

(** Every peer answers. *)
Definition env_up : Env := env_with (λ _, inr pong) (λ _, inr tt).


(** Every peer answers but the one at [dead]. *)
Definition env_without (dead : string) : Env :=
  env_with (λ p, if String.eqb (ip p) dead then inl unresponsive else inr pong)
           (λ p, if String.eqb (ip p) dead then inl unresponsive else inr tt).

Definition peer_at (i : string) (h : option N) (slot : option Z) (forging : bool)
    (banned_until : Z) (latency : option Z) : Peer :=
  {| ip := i; port := 4001; ban := banned_until; delay := latency; downloadSize := None;
     state := {| height := h; currentSlot := slot; forgingAllowed := forging |} |}.

Definition registry (l : list Peer) : gmap string Peer :=
  list_to_map ((λ p, (ip p, p)) <$> l).

Definition config_of (l : list SeedPeer) : Config :=
  {| peers_list := Some l; server_port := 4001; network_nethash := "6e84d08bd299ed97" |}.

Definition sys_of (l : list SeedPeer) (ps : list Peer) : Sys :=
  {| self := {| config := config_of l; peers := registry ps |}; tick := 0 |}.

(** Three peers at heights 9, 10 and 11. *)
Definition heights_9_10_11 : gmap string Peer :=
  registry [peer_at "10.0.0.1" (Some 9%N) None false 0 None;
            peer_at "10.0.0.2" (Some 10%N) None false 0 None;
            peer_at "10.0.0.3" (Some 11%N) None false 0 None].

(** Five peers at heights 10, 20, 30, 40 and 50. *)
Definition heights_10_to_50 : gmap string Peer :=
  registry [peer_at "10.0.0.1" (Some 50%N) None false 0 None;
            peer_at "10.0.0.2" (Some 10%N) None false 0 None;
            peer_at "10.0.0.3" (Some 40%N) None false 0 None;
            peer_at "10.0.0.4" (Some 20%N) None false 0 None;
            peer_at "10.0.0.5" (Some 30%N) None false 0 None].

(** Four peers in slot 7, three of them allowed to forge at or above the
    network height, and a fifth peer in another slot. *)
Definition four_in_slot : gmap string Peer :=
  registry [peer_at "10.0.0.1" (Some 30%N) (Some 7) true 0 None;
            peer_at "10.0.0.2" (Some 30%N) (Some 7) true 0 None;
            peer_at "10.0.0.3" (Some 31%N) (Some 7) true 0 None;
            peer_at "10.0.0.4" (Some 30%N) (Some 7) false 0 None;
            peer_at "10.0.0.5" (Some 12%N) (Some 6) true 0 None].

(** A seed list that names the node itself next to three other nodes. *)
Definition seeds : list SeedPeer :=
  [ {| seed_ip := "127.0.0.1"; seed_port := 4001 |};
    {| seed_ip := "10.0.0.1"; seed_port := 4001 |};
    {| seed_ip := "10.0.0.2"; seed_port := 4001 |};
    {| seed_ip := "10.0.0.3"; seed_port := 4001 |} ].

(** One peer that is slow but not banned. *)
Definition slow_peer : Peer := peer_at "10.0.0.1" (Some 30%N) (Some 7) true 0 (Some 500).

(** One peer that is banned for good. *)
Definition banned_peer : Peer := peer_at "10.0.0.1" (Some 30%N) (Some 7) true 2000000 (Some 5).

(** A banned peer that was stored under the key "undefined". *)
Definition nameless_peer : Peer := peer_at "undefined" None None false 2000000 None.

End Sample.

(** * Properties *)

(** Closed statements about the sample data are settled by evaluation. *)
Ltac evaluate := vm_compute; reflexivity.

(** ** Sorting and indexing *)

Lemma insert_by_Permutation {A} (le : A → A → bool) (x : A) (l : list A) :
  Permutation (JS.insert_by le x l) (x :: l).
Proof.
  induction l as [|y l IH]; simpl; [done|].
  destruct (le x y); [done|].
  rewrite IH. apply perm_swap.
Qed.

Lemma sort_by_Permutation {A} (le : A → A → bool) (l : list A) :
  Permutation (JS.sort_by le l) l.
Proof.
  induction l as [|x l IH]; simpl; [done|].
  unfold JS.sort_by in *. simpl. rewrite insert_by_Permutation. by constructor.
Qed.

Lemma sort_by_length {A} (le : A → A → bool) (l : list A) :
  length (JS.sort_by le l) = length l.
Proof. apply Permutation_length, sort_by_Permutation. Qed.

Lemma insert_by_HdRel {A} (le : A → A → bool) (a x : A) (l : list A) :
  le a x = true → HdRel (λ u v, le u v = true) a l →
  HdRel (λ u v, le u v = true) a (JS.insert_by le x l).
Proof.
  intros Hax Hal. destruct l as [|y l]; simpl; [by constructor|].
  destruct (le x y); constructor; [done|].
  by apply HdRel_inv in Hal.
Qed.

Lemma insert_by_Sorted {A} (le : A → A → bool) (x : A) (l : list A) :
  (∀ a b, le a b = true ∨ le b a = true) →
  Sorted (λ u v, le u v = true) l →
  Sorted (λ u v, le u v = true) (JS.insert_by le x l).
Proof.
  intros Htotal. induction l as [|y l IH]; intros Hl; simpl.
  - by repeat constructor.
  - destruct (le x y) eqn:Hxy.
    + constructor; [done|]. by constructor.
    + apply Sorted_inv in Hl as [Hl Hy].
      constructor; [by apply IH|].
      apply insert_by_HdRel; [|done].
      destruct (Htotal x y) as [Hle|Hle]; [congruence|done].
Qed.

(** For a total comparison, [sort_by] orders its argument. *)
Lemma sort_by_Sorted {A} (le : A → A → bool) (l : list A) :
  (∀ a b, le a b = true ∨ le b a = true) →
  Sorted (λ u v, le u v = true) (JS.sort_by le l).
Proof.
  intros Htotal. induction l as [|x l IH]; [constructor|].
  unfold JS.sort_by in *. simpl. by apply insert_by_Sorted.
Qed.

(** [sort()] orders the numbers by their decimal spelling. *)
Lemma sort_Sorted (l : list N) :
  Sorted (λ a b, String.leb (JS.ToString a) (JS.ToString b) = true) (JS.sort l).
Proof.
  apply (sort_by_Sorted JS.default_le). intros a b. apply String.leb_total.
Qed.

(** The order asked for by the specification is the ascending one. *)
Lemma sort_numeric_Sorted (l : list N) : Sorted N.le (JS.sort_numeric l).
Proof.
  assert (Hs : Sorted (λ a b, N.leb a b = true) (JS.sort_numeric l)).
  { apply (sort_by_Sorted N.leb). intros a b.
    destruct (N.leb_spec a b); [by left|]. right. apply N.leb_le. lia. }
  induction Hs as [|a l' _ IH Hhd]; constructor; [done|].
  destruct Hhd; constructor. by apply N.leb_le.
Qed.

(** Two numbers with the same spelling are equal. *)
Lemma ToString_inj (a b : N) : JS.ToString a = JS.ToString b → a = b.
Proof.
  unfold JS.ToString. intros Heq.
  assert (Hnil : ∀ n, N.to_uint n ≠ Decimal.Nil).
  { intros [|p]; [done|]. simpl. unfold Pos.to_uint.
    intros Hp. pose proof (DecimalPos.Unsigned.to_uint_nonnil p). contradiction. }
  apply Unsigned.to_uint_inj.
  assert (Hsome : Some (N.to_uint a) = Some (N.to_uint b)); [|by injection Hsome].
  rewrite <- (NilZero.usu (N.to_uint a)), <- (NilZero.usu (N.to_uint b)) by done.
  by rewrite Heq.
Qed.

Lemma string_compare_trans (s1 s2 s3 : string) :
  String.compare s1 s2 ≠ Gt → String.compare s2 s3 ≠ Gt → String.compare s1 s3 ≠ Gt.
Proof.
  revert s2 s3. induction s1 as [|c1 s1 IH]; intros [|c2 s2] [|c3 s3]; simpl; try done.
  unfold Ascii.compare.
  destruct (N.compare_spec (N_of_ascii c1) (N_of_ascii c2)) as [H12|H12|H12];
    destruct (N.compare_spec (N_of_ascii c2) (N_of_ascii c3)) as [H23|H23|H23];
    try done; intros Hle12 Hle23.
  - rewrite H12, H23, N.compare_refl. by eapply IH.
  - rewrite H12. by rewrite (proj2 (N.compare_lt_iff _ _) H23).
  - rewrite <- H23. by rewrite (proj2 (N.compare_lt_iff _ _) H12).
  - assert (Hlt : (N_of_ascii c1 < N_of_ascii c3)%N) by lia.
    by rewrite (proj2 (N.compare_lt_iff _ _) Hlt).
Qed.

Lemma string_leb_trans (s1 s2 s3 : string) :
  String.leb s1 s2 = true → String.leb s2 s3 = true → String.leb s1 s3 = true.
Proof.
  unfold String.leb. intros H12 H23.
  pose proof (string_compare_trans s1 s2 s3) as Htrans.
  destruct (String.compare s1 s2), (String.compare s2 s3), (String.compare s1 s3);
    try done; exfalso; by apply Htrans.
Qed.

(** The result of [sort()] depends on the numbers only, not on the order in
    which the registry lists its peers. *)
Lemma sort_Permutation_eq (l l' : list N) : Permutation l l' → JS.sort l = JS.sort l'.
Proof.
  intros Hperm.
  set (R := λ a b : N, String.leb (JS.ToString a) (JS.ToString b) = true).
  assert (Htrans : Transitive R).
  { intros a b c. apply string_leb_trans. }
  assert (Hanti : AntiSymm eq R).
  { intros a b Hab Hba. by apply ToString_inj, String.leb_antisym. }
  apply (Sorted_unique R); [apply sort_Sorted|apply sort_Sorted|].
  unfold JS.sort. by rewrite !sort_by_Permutation.
Qed.


Lemma ToInt32_small (z : Z) : 0 ≤ z < 2 ^ 31 → JS.ToInt32 z = z.
Proof.
  intros Hz. unfold JS.ToInt32. rewrite Z.mod_small; lia.
Qed.

(** [~~(n / 2)] is [floor(n / 2)] for every length an array can have. *)
Lemma half_floor (n : nat) : Z.of_nat n < 2 ^ 32 → JS.half n = Z.of_nat (n / 2).
Proof.
  intros Hn. unfold JS.half, JS.trunc.
  assert (Hle : Qle_bool 0 (Z.of_nat n # 2) = true).
  { apply Qle_bool_iff. unfold Qle. simpl. lia. }
  rewrite Hle. unfold Qfloor.
  change (Z.pos 2) with (Z.of_nat 2). rewrite <- Nat2Z.inj_div.
  apply ToInt32_small. split; [lia|].
  assert (n / 2 <= n)%nat by (apply Nat.Div0.div_le_upper_bound; lia).
  assert (Z.of_nat (n / 2) * 2 ≤ Z.of_nat n).
  { pose proof (Nat.Div0.mul_div_le n 2). lia. }
  lia.
Qed.

Lemma index_nat {A} (l : list A) (n : nat) : JS.index l (Z.of_nat n) = l !! n.
Proof.
  unfold JS.index. destruct (Z.ltb_spec (Z.of_nat n) 0); [lia|].
  by rewrite Nat2Z.id.
Qed.

Lemma index_elem_of {A} (l : list A) (i : Z) (x : A) : JS.index l i = Some x → x ∈ l.
Proof.
  unfold JS.index. destruct (i <? 0); [done|].
  intros H. by eapply list_elem_of_lookup_2.
Qed.

Lemma filter_none {A} (f : A → bool) (l : list A) :
  (∀ x, x ∈ l → f x = false) → List.filter f l = [].
Proof.
  induction l as [|x l IH]; intros Hall; simpl; [done|].
  rewrite (Hall x) by constructor.
  apply IH. intros y Hy. apply Hall. by constructor.
Qed.

(** ** [getNetworkHeight] *)

(** The code returns the middle element of the heights in the order of
    [sort()], the order of their decimal spellings. *)
Lemma getNetworkHeight_middle (ps : gmap string Peer) :
  Z.of_nat (size ps) < 2 ^ 32 →
  getNetworkHeight ps =
    let median := JS.sort (map reported_height (List.filter has_height (Object_values ps))) in
    median !! (length median / 2)%nat.
Proof.
  intros Hsize. unfold getNetworkHeight. cbv zeta.
  set (median := JS.sort _).
  rewrite half_floor; [apply index_nat|].
  unfold median, JS.sort. rewrite sort_by_length, length_map.
  pose proof (List.filter_length_le has_height (Object_values ps)) as Hle.
  unfold Object_values in *. rewrite length_fmap in Hle.
  rewrite length_map_to_list in Hle. lia.
Qed.

(** Over an empty set of heights the answer is [undefined]. *)
Lemma getNetworkHeight_no_data (ps : gmap string Peer) :
  (∀ key p, ps !! key = Some p → has_height p = false) →
  getNetworkHeight ps = None.
Proof.
  intros Hnone. unfold getNetworkHeight.
  assert (Hnil : List.filter has_height (Object_values ps) = []).
  { apply filter_none. intros p Hp.
    unfold Object_values in Hp. apply list_elem_of_fmap in Hp as [[key p'] [-> Hin]].
    apply elem_of_map_to_list in Hin. by eapply Hnone. }
  rewrite Hnil. reflexivity.
Qed.

(** [getNetworkHeight] makes the same answer for every order in which
    [Object.values] may list the peers. *)
Lemma getNetworkHeight_any_order (ps : gmap string Peer) (values : list Peer) :
  Permutation values (Object_values ps) →
  getNetworkHeight ps =
    let median := JS.sort (map reported_height (List.filter has_height values)) in
    JS.index median (JS.half (length median)).
Proof.
  intros Hperm. unfold getNetworkHeight. cbv zeta.
  assert (Hheights : Permutation (map reported_height (List.filter has_height (Object_values ps)))
                                 (map reported_height (List.filter has_height values))).
  { apply Permutation_map. symmetry.
    clear -Hperm. induction Hperm as [|x l l' _ IH|x y l|l l' l'' _ IH1 _ IH2]; simpl.
    - done.
    - destruct (has_height x); [by constructor|done].
    - destruct (has_height x), (has_height y); try done. apply perm_swap.
    - by etrans. }
  by rewrite (sort_Permutation_eq _ _ Hheights).
Qed.

(** Over the heights 10, 20, 30, 40 and 50 the answer is 30. *)
Example getNetworkHeight_10_to_50 : getNetworkHeight Sample.heights_10_to_50 = Some 30%N.
Proof. evaluate. Qed.

(** C1.  [getNetworkHeight] does not sort the heights numerically: [sort()]
    without a comparator orders them by their decimal spelling.  Over peers
    reporting the heights 9, 10 and 11 it orders them 10, 11, 9 and returns
    11, while the middle of the numerically ascending order, which the
    documented median asks for, is 10. *)
Theorem getNetworkHeight_not_numeric :
  JS.sort [9; 10; 11]%N = [10; 11; 9]%N ∧
  getNetworkHeight Sample.heights_9_10_11 = Some 11%N ∧
  networkHeight_spec Sample.heights_9_10_11 = Some 10%N.
Proof. repeat split; evaluate. Qed.

(** ** [constructor] *)

(** C5.  A configuration whose seed list is the empty sequence is accepted:
    the test [!config.peers.list] only catches a list that is not defined,
    and construction succeeds with an empty registry. *)
Theorem constructor_empty_list_succeeds (e : Env) (own_port : Z) (nethash : string) :
  let cfg := {| peers_list := Some []; server_port := own_port; network_nethash := nethash |} in
  constructor e cfg = inr {| config := cfg; peers := ∅ |}.
Proof. reflexivity. Qed.

(** The constructor does fail when the configuration defines no list. *)
Lemma constructor_no_list (e : Env) (cfg : Config) :
  peers_list cfg = None → constructor e cfg = inl NoSeedPeers.
Proof. intros H. unfold constructor. by rewrite H. Qed.

(** ** [stop] *)

(** C10.  [stop()] is a no-op: it returns at once and leaves the instance,
    hence the registry and the state of every peer, as it was; and whatever
    runs after it runs as it would have run without it, so that it cancels
    nothing. *)
Theorem stop_noop (s : Sys) :
  stop s = Return tt s ∧
  ∀ (A : Type) (m : M A), bind stop (λ _, m) s = m s.
Proof. split; [reflexivity|]. intros A m. reflexivity. Qed.

(** ** [acceptNewPeer] *)



(** ** [getRandomPeer] *)


(** The ban filter reads the clock once per key, and keeps a key only if
    the ban of its peer ended before the reading made for it. *)
Lemma filter_not_banned_spec (e : Env) (ps : gmap string Peer) (keys : list string)
    (t : nat) (r : list string) (t' : nat) :
  filter_not_banned e ps keys t = (r, t') →
  t' = (t + length keys)%nat ∧
  ∀ key, key ∈ r →
    key ∈ keys ∧
    ∃ p i, ps !! key = Some p ∧ (t ≤ i < t')%nat ∧ ban p < Date_getTime e i.
Proof.
  revert t r t'. induction keys as [|k keys IH]; intros t r t' Hf; simpl in Hf.
  - injection Hf as <- <-. split; [simpl; lia|]. intros key Hin. by apply elem_of_nil in Hin.
  - destruct (filter_not_banned e ps keys (S t)) as [r0 t0] eqn:Hrec.
    injection Hf as <- <-.
    destruct (IH _ _ _ Hrec) as [Ht0 Hkeep]. split; [simpl; lia|].
    intros key Hin.
    assert (Hold : key ∈ r0 →
              key ∈ k :: keys ∧
              ∃ p i, ps !! key = Some p ∧ (t ≤ i < t0)%nat ∧ ban p < Date_getTime e i).
    { intros Hr0. destruct (Hkeep _ Hr0) as [Hk (p & i & Hp & Hi & Hb)].
      split; [by constructor|]. exists p, i. repeat split; [done|lia|lia|done]. }
    destruct (ps !! k) as [p|] eqn:Hk; [|by apply Hold].
    destruct (bool_decide (ban p < Date_getTime e t)) eqn:Hb; [|by apply Hold].
    apply elem_of_cons in Hin as [->|Hin]; [|by apply Hold].
    apply bool_decide_eq_true in Hb. split; [by constructor|].
    exists p, t. repeat split; [done|lia|lia|done].
Qed.


Lemma filter_delay_subseteq (ps : gmap string Peer) (D : option Z) (keys : list string)
    (key : string) :
  key ∈ filter_delay ps D keys → key ∈ keys.
Proof.
  unfold filter_delay. destruct D as [d|]; [|done].
  destruct (d =? 0); [done|].
  rewrite !list_elem_of_In, filter_In. tauto.
Qed.



Lemma pick_random_elem (e : Env) (t : nat) (keys : list string) (key : string) :
  pick_random e t keys = Some key → key ∈ keys.
Proof. apply index_elem_of. Qed.

(** One attempt of [getRandomPeer]: either it returns the peer stored under
    the key it drew, or it calls itself without a latency bound. *)
Lemma getRandomPeer_unfold (fuel : nat) (e : Env) (D : option Z) (s : Sys) :
  getRandomPeer (S fuel) e D s =
    let ps := peers (self s) in
    let kt := filter_not_banned e ps (Object_keys ps) (tick s) in
    let random := pick_random e kt.2 (filter_delay ps D kt.1) in
    match ps !! JS.ToPropertyKey random with
    | None =>
        getRandomPeer fuel e None
          (set_peers (delete (JS.ToPropertyKey random) ps) (set_tick (S (S kt.2)) s))
    | Some randomPeer => Return randomPeer (set_tick (S kt.2) s)
    end.
Proof. simpl. by destruct (filter_not_banned _ _ _ _). Qed.

(** A peer that is returned is registered, and its ban ended before one of
    the clock readings of the call; the registry is as before. *)
Lemma getRandomPeer_returns (fuel : nat) (e : Env) (D : option Z) (s : Sys) (p : Peer) (s' : Sys) :
  peers (self s) !! "undefined" = None →
  getRandomPeer fuel e D s = Return p s' →
  (∃ key, peers (self s) !! key = Some p) ∧
  (∃ t, (tick s ≤ t < tick s')%nat ∧ ban p < Date_getTime e t) ∧
  peers (self s') = peers (self s).
Proof.
  revert D s. induction fuel as [|fuel IH]; intros D s Hundef Hret; [done|].
  rewrite getRandomPeer_unfold in Hret. cbv zeta in Hret.
  destruct (filter_not_banned e (peers (self s)) (Object_keys (peers (self s))) (tick s))
    as [keys t] eqn:Hf.
  destruct (filter_not_banned_spec _ _ _ _ _ _ Hf) as [Ht Hkeep]. simpl in Hret.
  destruct (pick_random e t (filter_delay (peers (self s)) D keys)) as [key|] eqn:Hpick;
    simpl in Hret.
  - apply pick_random_elem, filter_delay_subseteq in Hpick.
    destruct (Hkeep _ Hpick) as [_ (p0 & i & Hp0 & Hi & Hb)].
    rewrite Hp0 in Hret. injection Hret as <- <-.
    split; [by exists key|]. split; [|done].
    exists i. simpl. split; [lia|done].
  - rewrite Hundef in Hret.
    rewrite (delete_id _ _ Hundef) in Hret.
    apply IH in Hret as (Hkey & (i & Hi & Hb) & Hsame); [|done].
    simpl in *. split; [done|]. split; [|done].
    exists i. split; [lia|done].
Qed.


(** [getRandomPeer] raises no error. *)
Lemma getRandomPeer_never_throws (fuel : nat) (e : Env) (D : option Z) (s : Sys)
    (err : Error) (s' : Sys) :
  getRandomPeer fuel e D s ≠ Throw err s'.
Proof.
  revert D s. induction fuel as [|fuel IH]; intros D s; [done|].
  rewrite getRandomPeer_unfold. cbv zeta.
  destruct (peers (self s) !! _); [done|apply IH].
Qed.


(** The condition on the key "undefined" cannot be dropped: when no key
    passes the filters, the key drawn is [undefined], and the lookup
    [this.peers[undefined]] finds a peer stored under that name, banned or
    not. *)
Example getRandomPeer_undefined_key :
  getRandomPeer 1 Sample.env_up None (Sample.sys_of [] [Sample.nameless_peer])
  = Return Sample.nameless_peer (set_tick 2 (Sample.sys_of [] [Sample.nameless_peer])).
Proof. evaluate. Qed.




(** ** [broadcastBlock] *)

(** A rejected promise stays rejected, whatever settles afterwards. *)
Lemma Promise_all_rejected {A} (err : Error) (evs : list (nat * (Error + A))) :
  foldl Promise_all_settle (Rejected err) evs = Rejected err.
Proof. by induction evs. Qed.

Lemma gathered_lookup (l : list nat) (n j : nat) :
  gathered l n !! j =
    if decide (j < n)%nat then Some (if decide (j ∈ l) then Some tt else None) else None.
Proof.
  unfold gathered. rewrite list_lookup_fmap.
  destruct (decide (j < n)%nat) as [Hj|Hj].
  - by rewrite lookup_seq_lt.
  - by rewrite lookup_seq_ge by lia.
Qed.

Lemma gathered_length (l : list nat) (n : nat) : length (gathered l n) = n.
Proof. unfold gathered. by rewrite length_fmap, length_seq. Qed.

Lemma gathered_nil (n : nat) : gathered [] n = replicate n None.
Proof.
  apply list_eq. intros j. rewrite gathered_lookup.
  destruct (decide (j < n)%nat) as [Hj|Hj].
  - rewrite decide_False by apply not_elem_of_nil.
    symmetry. by apply lookup_replicate_2.
  - symmetry. apply lookup_replicate_None. lia.
Qed.

Lemma gathered_snoc (l : list nat) (n i : nat) :
  <[i := Some tt]> (gathered l n) = gathered (l ++ [i]) n.
Proof.
  apply list_eq. intros j.
  rewrite list_lookup_insert, !gathered_lookup, gathered_length.
  destruct (decide (j < n)%nat) as [Hj|Hj].
  - destruct (decide (i = j)) as [->|Hne].
    + rewrite decide_True by done.
      rewrite (decide_True (P := j ∈ l ++ [j])); [done|].
      apply elem_of_app. right. by constructor.
    + rewrite decide_False by tauto.
      destruct (decide (j ∈ l)) as [Hin|Hin].
      * rewrite decide_True; [done|]. apply elem_of_app. by left.
      * rewrite decide_False; [done|].
        rewrite elem_of_app, list_elem_of_singleton. intros [?|?]; congruence.
  - rewrite decide_False by lia. done.
Qed.

Lemma gathered_all (l : list nat) (n : nat) :
  (∀ j, (j < n)%nat → j ∈ l) → omap id (gathered l n) = replicate n tt.
Proof.
  intros Hall. unfold gathered.
  assert (Hfill : ∀ k m, (k + m ≤ n)%nat →
            omap id ((λ j, if decide (j ∈ l) then Some tt else None) <$> seq k m)
            = replicate m tt).
  { intros k m. revert k. induction m as [|m IH]; intros k Hk; simpl; [done|].
    rewrite decide_True by (apply Hall; lia). simpl. f_equal. apply IH. lia. }
  apply Hfill. lia.
Qed.

(** Distinct positions below [n] are at most [n], and [n] of them are all. *)
Lemma positions_bound (l : list nat) (n : nat) :
  NoDup l → (∀ j, j ∈ l → (j < n)%nat) → (length l ≤ n)%nat.
Proof.
  intros Hnd Hlt.
  assert (Hincl : incl l (seq 0 n)).
  { intros j Hj. apply list_elem_of_In, elem_of_seq.
    apply list_elem_of_In, Hlt in Hj. lia. }
  pose proof (NoDup_incl_length (proj1 (NoDup_ListNoDup l) Hnd) Hincl) as Hlen.
  by rewrite length_seq in Hlen.
Qed.

Lemma positions_cover (l : list nat) (n : nat) :
  NoDup l → (∀ j, j ∈ l → (j < n)%nat) → length l = n → ∀ j, (j < n)%nat → j ∈ l.
Proof.
  intros Hnd Hlt Hlen j Hj. apply list_elem_of_In.
  apply (NoDup_length_incl (l := l) (l' := seq 0 n));
    [by apply NoDup_ListNoDup|rewrite length_seq; lia| |].
  - intros k Hk. apply list_elem_of_In, elem_of_seq.
    apply list_elem_of_In, Hlt in Hk. lia.
  - apply list_elem_of_In, elem_of_seq. lia.
Qed.

(** [Promise.all] over [n] promises, after those at the distinct positions
    [l] have been fulfilled: it waits while some promise is pending, and is
    fulfilled once all of them are. *)
Lemma Promise_all_fulfilled_run (n : nat) (l : list nat) :
  NoDup l → (∀ j, j ∈ l → (j < n)%nat) →
  foldl Promise_all_settle (Promise_all_start n) ((λ j, (j, inr tt)) <$> l) =
    if decide (length l < n)%nat
    then Waiting (gathered l n) (n - length l)
    else Fulfilled (replicate n tt).
Proof.
  induction l as [|i l IH] using rev_ind; intros Hnd Hlt.
  - rewrite gathered_nil. destruct (decide (length (@nil nat) < n)%nat) as [Hn|Hn]; simpl in Hn.
    + destruct n as [|n]; [lia|]. by rewrite Nat.sub_0_r.
    + by replace n with 0%nat by lia.
  - pose proof (positions_bound _ _ Hnd Hlt) as Hlen. rewrite length_app in Hlen. simpl in Hlen.
    pose proof Hnd as Hnd'. apply NoDup_app in Hnd' as (Hnd' & _ & _).
    rewrite fmap_app, foldl_app, IH; [|done|intros j Hj; apply Hlt, elem_of_app; by left].
    rewrite decide_True by lia. simpl.
    rewrite gathered_snoc, length_app. simpl.
    destruct (n - length l)%nat as [|[|r]] eqn:Hr; [lia| |].
    + rewrite decide_False by lia. f_equal.
      apply gathered_all, positions_cover; [done|done|rewrite length_app; simpl; lia].
    + rewrite decide_True by lia. f_equal. lia.
Qed.

(** The settlements of sends that all succeed. *)
Lemma block_sends_fulfilled (e : Env) (t : nat) (block : Block) (bpeers : list Peer)
    (l : list nat) :
  (∀ j, j ∈ l → ∃ pj, bpeers !! j = Some pj ∧ Peer_postBlock e t pj block = inr tt) →
  omap (λ i, block_sends e t block bpeers !! i) l = (λ j, (j, inr tt)) <$> l.
Proof.
  induction l as [|i l IH]; intros Hok; simpl; [done|].
  destruct (Hok i) as (pi & Hpi & Hsent); [by constructor|].
  unfold block_sends at 1. rewrite list_lookup_imap, Hpi. simpl. rewrite Hsent.
  f_equal. apply IH. intros j Hj. apply Hok. by constructor.
Qed.

(** C3, as the code has it.  [broadcastBlock] sends the block to every
    registered peer and answers the promise of [Promise.all] over the
    sends; the registry is not changed.  When every send succeeds, the
    promise is fulfilled, with one acknowledgement per peer, once all of
    them have settled.  When a send fails after sends that succeeded, the
    promise is rejected with the error of that send, as soon as it settles
    and whatever the sends still pending do: the failure of one peer
    reaches the caller as an error, and no count is made. *)
Theorem broadcastBlock_all_or_first_failure (e : Env) (block : Block) (s : Sys) :
  let bpeers := Object_values (peers (self s)) in
  let sent := λ peer, Peer_postBlock e (tick s) peer block in
  (∀ settled, peers (self (broadcastBlock e block settled s).2) = peers (self s)) ∧
  (∀ settled,
     (∀ peer, peer ∈ bpeers → sent peer = inr tt) →
     Permutation settled (seq 0 (length bpeers)) →
     (broadcastBlock e block settled s).1 = Fulfilled (replicate (length bpeers) tt)) ∧
  (∀ before i after peer err,
     NoDup (before ++ [i]) →
     (∀ j, j ∈ before → ∃ pj, bpeers !! j = Some pj ∧ sent pj = inr tt) →
     bpeers !! i = Some peer →
     sent peer = inl err →
     (broadcastBlock e block (before ++ i :: after) s).1 = Rejected err).
Proof.
  intros bpeers sent. split; [done|]. split.
  - intros settled Hok Hperm. unfold broadcastBlock. simpl. fold bpeers.
    assert (Hlt : ∀ j, j ∈ settled → (j < length bpeers)%nat).
    { intros j Hj. rewrite Hperm in Hj. apply elem_of_seq in Hj. lia. }
    rewrite block_sends_fulfilled.
    + rewrite Promise_all_fulfilled_run; [|by rewrite Hperm; apply NoDup_seq|done].
      rewrite decide_False; [done|].
      apply Permutation_length in Hperm. rewrite length_seq in Hperm. lia.
    + intros j Hj. apply Hlt in Hj.
      destruct (lookup_lt_is_Some_2 bpeers j Hj) as [pj Hpj].
      exists pj. split; [done|]. apply Hok. by eapply list_elem_of_lookup_2.
  - intros before i after peer err Hnd Hok Hi Hfail. unfold broadcastBlock. simpl. fold bpeers.
    assert (Hlt : ∀ j, j ∈ before ++ [i] → (j < length bpeers)%nat).
    { intros j Hj. apply elem_of_app in Hj as [Hj|Hj].
      - destruct (Hok _ Hj) as (pj & Hpj & _). by eapply lookup_lt_Some.
      - apply list_elem_of_singleton in Hj as ->. by eapply lookup_lt_Some. }
    pose proof (positions_bound _ _ Hnd Hlt) as Hlen. rewrite length_app in Hlen. simpl in Hlen.
    rewrite omap_app, foldl_app, block_sends_fulfilled by done.
    rewrite Promise_all_fulfilled_run;
      [|by apply NoDup_app in Hnd as (? & _ & _)|intros j Hj; apply Hlt, elem_of_app; by left].
    rewrite decide_True by lia. simpl.
    unfold block_sends at 1. rewrite list_lookup_imap, Hi. simpl.
    fold (sent peer). rewrite Hfail. apply Promise_all_rejected.
Qed.

Lemma broadcastBlock_all_or_first_failure_witness :
  (broadcastBlock (Sample.env_without "10.0.0.2") Sample.genesis [1; 2; 0]%nat
     {| self := {| config := Sample.config_of []; peers := Sample.heights_9_10_11 |}; tick := 0 |}).1
  = Rejected Sample.unresponsive.
Proof.
  refine (proj2 (proj2 (broadcastBlock_all_or_first_failure
            (Sample.env_without "10.0.0.2") Sample.genesis
            {| self := {| config := Sample.config_of []; peers := Sample.heights_9_10_11 |};
               tick := 0 |}))
          [1%nat] 2%nat [0%nat]
          (Sample.peer_at "10.0.0.2" (Some 10%N) None false 0 None) Sample.unresponsive _ _ _ _).
  - refine (bool_decide_unpack _ _). vm_compute. exact I.
  - intros j Hj. apply list_elem_of_singleton in Hj as ->.
    eexists. split; vm_compute; reflexivity.
  - vm_compute. reflexivity.
  - vm_compute. reflexivity.
Defined.

(** C3 fails as stated.  Of three peers one does not take the block.  If
    its send is the first to settle, the promise is rejected while the two
    other sends are pending; if it is the last, the promise is rejected all
    the same: the caller gets the error of that peer, not a count. *)
Lemma broadcastBlock_rejects_on_one_failure :
  let s := {| self := {| config := Sample.config_of []; peers := Sample.heights_9_10_11 |};
              tick := 0 |} in
  (broadcastBlock (Sample.env_without "10.0.0.2") Sample.genesis [2]%nat s).1
    = Rejected Sample.unresponsive ∧
  (broadcastBlock (Sample.env_without "10.0.0.2") Sample.genesis [0; 1; 2]%nat s).1
    = Rejected Sample.unresponsive.
Proof. split; evaluate. Qed.


(** ** [getPBFTForgingStatus] *)

Lemma filter_length_Permutation {A} (f : A → bool) (l l' : list A) :
  Permutation l l' → length (List.filter f l) = length (List.filter f l').
Proof.
  induction 1 as [|x l l' _ IH|x y l|l l' l'' _ IH1 _ IH2]; simpl.
  - done.
  - destruct (f x); simpl; congruence.
  - destruct (f x), (f y); reflexivity.
  - congruence.
Qed.

Lemma filter_filter_andb {A} (f g : A → bool) (l : list A) :
  List.filter g (List.filter f l) = List.filter (λ x, f x && g x) l.
Proof.
  induction l as [|x l IH]; simpl; [done|].
  destruct (f x); simpl; [|done]. destruct (g x); simpl; congruence.
Qed.

(** Counting the values of the registry that satisfy a condition, as the
    code does on [Object.values], is counting the entries of the registry
    that satisfy it. *)
Lemma filter_values_size (P : Peer → Prop) `{!∀ p, Decision (P p)} (ps : gmap string Peer) :
  length (List.filter (λ p, bool_decide (P p)) (Object_values ps))
  = size (filter (λ kp : string * Peer, P kp.2) ps).
Proof.
  induction ps as [|i x m Hi IH] using map_ind.
  - unfold Object_values. by rewrite map_to_list_empty, map_filter_empty, map_size_empty.
  - assert (Hperm : Permutation (Object_values (<[i:=x]> m)) (x :: Object_values m)).
    { unfold Object_values. by rewrite map_to_list_insert. }
    rewrite (filter_length_Permutation _ _ _ Hperm). simpl.
    rewrite map_filter_insert. simpl.
    destruct (decide (P x)) as [HP|HP].
    + rewrite bool_decide_eq_true_2 by done. simpl.
      rewrite map_size_insert_None; [by rewrite IH|].
      apply map_lookup_filter_None. by left.
    + rewrite bool_decide_eq_false_2 by done.
      by rewrite delete_id.
Qed.

Lemma ge_number_reaches (h networkHeight : option N) :
  ge_number h networkHeight = bool_decide (reaches h networkHeight).
Proof.
  destruct h as [x|], networkHeight as [y|]; simpl; try done.
  destruct (N.leb_spec y x).
  - by rewrite bool_decide_eq_true_2.
  - rewrite bool_decide_eq_false_2; [done|lia].
Qed.

(** C6, as the code has it.  [getPBFTForgingStatus] leaves the registry as
    it is and, among the peers whose reported slot is the local slot,
    returns the fraction of those that are allowed to forge and whose
    height is at least the network height, as [getNetworkHeight] gives it;
    when no peer is in the local slot the division is 0/0 and the result is
    NaN. *)
Theorem getPBFTForgingStatus_ratio (e : Env) (s : Sys) :
  let ps := peers (self s) in
  let slot := getSlotNumber e (tick s) in
  let synced := size (in_slot slot ps) in
  let ok := size (may_forge (getNetworkHeight ps) slot ps) in
  getPBFTForgingStatus e s =
    Return (if decide (synced = 0%nat) then JS.NaN
            else JS.Num (Z.of_nat ok # Pos.of_nat synced))
           (set_tick (S (tick s)) s)
  ∧ (ok ≤ synced)%nat.
Proof.
  intros ps slot synced ok.
  set (f := λ peer : Peer, bool_decide (currentSlot (state peer) = Some slot)).
  set (g := λ peer : Peer, forgingAllowed (state peer)
                           && ge_number (height (state peer)) (getNetworkHeight ps)).
  assert (Hsynced : length (List.filter f (Object_values ps)) = synced).
  { pose proof (filter_values_size (λ p, currentSlot (state p) = Some slot) ps) as Hsize.
    exact Hsize. }
  assert (Hok : length (List.filter g (List.filter f (Object_values ps))) = ok).
  { rewrite filter_filter_andb.
    rewrite (List.filter_ext _
      (λ p, bool_decide (currentSlot (state p) = Some slot ∧
                         forgingAllowed (state p) = true ∧
                         reaches (height (state p)) (getNetworkHeight ps)))).
    - pose proof (filter_values_size (λ p, currentSlot (state p) = Some slot ∧
                         forgingAllowed (state p) = true ∧
                         reaches (height (state p)) (getNetworkHeight ps)) ps) as Hsize.
      rewrite Hsize.
      unfold ok, may_forge, in_slot. rewrite map_filter_filter.
      f_equal. apply map_filter_ext. intros i x _. simpl. tauto.
    - intros p. unfold f, g. rewrite ge_number_reaches.
      destruct (forgingAllowed (state p)); simpl;
        repeat case_bool_decide; try done; tauto. }
  split.
  - unfold getPBFTForgingStatus, bind, get_peers, interact, ret, forging_ratio. f_equal.
    fold ps slot f g. rewrite Hok, Hsynced. unfold JS.div_lengths.
    destruct (decide (synced = 0%nat)) as [Hz|Hz].
    + rewrite Hz in *. destruct ok as [|n] eqn:Hn; [done|].
      pose proof (List.filter_length_le g (List.filter f (Object_values ps))). lia.
    + by destruct synced.
  - rewrite <- Hok, <- Hsynced. apply List.filter_length_le.
Qed.

(** The example of the specification: four peers in the local slot, three
    of them allowed to forge at or above the network height, give 3/4. *)
Example getPBFTForgingStatus_three_of_four :
  getPBFTForgingStatus Sample.env_up
    {| self := {| config := Sample.config_of []; peers := Sample.four_in_slot |}; tick := 0 |}
  = Return (JS.Num (3 # 4))
      {| self := {| config := Sample.config_of []; peers := Sample.four_in_slot |}; tick := 1 |}.
Proof. evaluate. Qed.

(** C6 fails as stated.  With no peer in the local slot, here in an empty
    registry, the result is NaN. *)
Lemma getPBFTForgingStatus_NaN :
  getPBFTForgingStatus Sample.env_up (Sample.sys_of [] [])
  = Return JS.NaN (set_tick 1 (Sample.sys_of [] [])).
Proof. evaluate. Qed.

(** ** [cleanPeers] *)

Lemma sweep_settle_swept (e : Env) (t0 : nat) (fast : bool) (ps0 : gmap string Peer)
    (acc : Sweep) (ip : string) :
  swept acc !! ip = ps0 !! ip →
  swept (sweep_settle e t0 fast ps0 acc ip) =
    match ps0 !! ip ≫= probed e t0 fast with
    | Some p' => <[ip := p']> (swept acc)
    | None => delete ip (swept acc)
    end.
Proof.
  intros Hsame. unfold sweep_settle, probed.
  destruct (ps0 !! ip) as [p|] eqn:Hp; simpl; [|done].
  destruct (Peer_ping e t0 p _) as [err|r]; simpl; [done|].
  by apply alter_alt_Some.
Qed.

Lemma sweep_settle_wrongpeers (e : Env) (t0 : nat) (fast : bool) (ps0 : gmap string Peer)
    (acc : Sweep) (ip : string) :
  wrongpeers (sweep_settle e t0 fast ps0 acc ip) =
    (wrongpeers acc + if key_fails e t0 fast ps0 ip then 1 else 0)%nat.
Proof.
  unfold sweep_settle, key_fails, probe_fails.
  destruct (ps0 !! ip) as [p|]; simpl; [|lia].
  destruct (Peer_ping e t0 p _); simpl; lia.
Qed.

(** The sweep after the pings of the distinct keys [l] have settled, in that
    order: each of these keys holds what its probe left, the other keys are
    untouched, and every key removed has been counted. *)
Lemma sweep_run (e : Env) (t0 : nat) (fast : bool) (ps0 : gmap string Peer) (l : list string) :
  NoDup l →
  (∀ key, key ∈ l → is_Some (ps0 !! key)) →
  let acc := foldl (sweep_settle e t0 fast ps0)
                   {| swept := ps0; count := 0; wrongpeers := 0 |} l in
  (∀ key, swept acc !! key =
          if decide (key ∈ l) then ps0 !! key ≫= probed e t0 fast else ps0 !! key) ∧
  wrongpeers acc = length (List.filter (key_fails e t0 fast ps0) l) ∧
  (size (swept acc) + wrongpeers acc = size ps0)%nat.
Proof.
  induction l as [|ip l IH] using rev_ind; intros Hnd Hdom; cbv zeta.
  - simpl foldl. simpl swept. simpl wrongpeers.
    split; [|split; [done|lia]]. intros key. by rewrite decide_False by apply not_elem_of_nil.
  - apply NoDup_app in Hnd as (Hnd & Hfresh & _).
    assert (Hdom' : ∀ key, key ∈ l → is_Some (ps0 !! key)).
    { intros key Hkey. apply Hdom, elem_of_app. by left. }
    destruct (Hdom ip) as [p0 Hp0]; [apply elem_of_app; right; by constructor|].
    assert (Hip : ip ∉ l).
    { intros Hin. apply (Hfresh _ Hin). by constructor. }
    destruct (IH Hnd Hdom') as (Hlook & Hwrong & Hsize). clear IH.
    rewrite foldl_snoc.
    set (acc := foldl _ _ l) in *.
    assert (Hsame : swept acc !! ip = ps0 !! ip).
    { by rewrite Hlook, decide_False. }
    split; [|split].
    + intros key. rewrite (sweep_settle_swept _ _ _ _ _ _ Hsame).
      destruct (decide (key = ip)) as [->|Hne].
      * rewrite decide_True by (apply elem_of_app; right; by constructor).
        destruct (ps0 !! ip ≫= probed e t0 fast);
          [by rewrite lookup_insert_eq|by rewrite lookup_delete_eq].
      * assert (Hkey : swept acc !! key =
                  if decide (key ∈ l ++ [ip]) then ps0 !! key ≫= probed e t0 fast
                  else ps0 !! key).
        { rewrite Hlook. destruct (decide (key ∈ l)) as [Hin|Hin].
          - rewrite decide_True; [done|]. apply elem_of_app. by left.
          - rewrite decide_False; [done|].
            rewrite elem_of_app, list_elem_of_singleton. tauto. }
        destruct (ps0 !! ip ≫= probed e t0 fast);
          [by rewrite lookup_insert_ne|by rewrite lookup_delete_ne].
    + rewrite sweep_settle_wrongpeers, Hwrong, List.filter_app, length_app. simpl.
      by destruct (key_fails e t0 fast ps0 ip).
    + rewrite sweep_settle_wrongpeers, (sweep_settle_swept _ _ _ _ _ _ Hsame).
      unfold key_fails, probe_fails, probed.
      rewrite Hp0 in *. simpl.
      destruct (Peer_ping e t0 p0 _) as [err|r]; simpl.
      * rewrite map_size_delete_Some by (rewrite Hsame; eauto).
        assert (size (swept acc) ≠ 0%nat); [|lia].
        intros Hz. apply map_size_empty_iff in Hz. rewrite Hz in Hsame.
        by rewrite lookup_empty in Hsame.
      * rewrite map_size_insert_Some by (rewrite Hsame; eauto). lia.
Qed.

Lemma filter_keys_values (fk : string → bool) (fv : Peer → bool) (l : list (string * Peer)) :
  (∀ kp, kp ∈ l → fk kp.1 = fv kp.2) →
  length (List.filter fk l.*1) = length (List.filter fv l.*2).
Proof.
  induction l as [|kp l IH]; intros Hsame; [done|].
  assert (Hrest : length (List.filter fk l.*1) = length (List.filter fv l.*2)).
  { apply IH. intros kp' Hin. apply Hsame. by constructor. }
  rewrite !fmap_cons. simpl List.filter.
  rewrite (Hsame kp) by constructor.
  destruct (fv kp.2); simpl length; by rewrite Hrest.
Qed.

Lemma Object_keys_elem_of (ps : gmap string Peer) (key : string) :
  key ∈ Object_keys ps ↔ is_Some (ps !! key).
Proof.
  unfold Object_keys. rewrite list_elem_of_fmap. split.
  - intros [[k p] [-> Hin]]. apply elem_of_map_to_list in Hin. by exists p.
  - intros [p Hp]. exists (key, p). split; [done|]. by apply elem_of_map_to_list.
Qed.

(** C7.  A sweep over the N registered peers of which M fail their probe,
    the probes settling in any order: when it completes, the registry holds
    exactly the peers whose probe succeeded, each as its probe updated it,
    that is N - M entries, and the log reports N - M responsive peers out
    of N. *)
Theorem cleanPeers_keeps_responsive (e : Env) (fast : bool) (order : list string) (s : Sys) :
  Permutation order (Object_keys (peers (self s))) →
  let N := size (peers (self s)) in
  let M := length (List.filter (probe_fails e (tick s) fast) (Object_values (peers (self s)))) in
  ∃ report s',
    cleanPeers_ordered e fast order s = Return report s' ∧
    peers (self s') = omap (probed e (tick s) fast) (peers (self s)) ∧
    size (peers (self s')) = (N - M)%nat ∧
    responsive report = (N - M)%nat ∧
    checked report = N ∧
    (∀ key, is_Some (peers (self s') !! key) ↔
            ∃ p, peers (self s) !! key = Some p ∧ probe_fails e (tick s) fast p = false).
Proof.
  intros Hperm N M.
  set (ps0 := peers (self s)) in *.
  assert (Hnd : NoDup order).
  { rewrite Hperm. apply NoDup_fst_map_to_list. }
  assert (Hdom : ∀ key, key ∈ order → is_Some (ps0 !! key)).
  { intros key Hkey. rewrite Hperm in Hkey. by apply Object_keys_elem_of. }
  destruct (sweep_run e (tick s) fast ps0 order Hnd Hdom) as (Hlook & Hwrong & Hsize).
  set (acc := foldl _ _ order) in *.
  assert (HM : wrongpeers acc = M).
  { rewrite Hwrong, (filter_length_Permutation _ _ _ Hperm).
    apply filter_keys_values. intros [k p] Hin. simpl.
    apply elem_of_map_to_list in Hin. unfold key_fails. fold ps0. by rewrite Hin. }
  assert (Hfinal : swept acc = omap (probed e (tick s) fast) ps0).
  { apply map_eq. intros key. rewrite Hlook, lookup_omap.
    destruct (decide (key ∈ order)) as [Hin|Hout]; [done|].
    destruct (ps0 !! key) as [p|] eqn:Hp; [|done].
    exfalso. apply Hout. rewrite Hperm. apply Object_keys_elem_of. fold ps0. eauto. }
  assert (Hmax : length (Object_keys ps0) = N).
  { unfold Object_keys. by rewrite length_fmap, length_map_to_list. }
  unfold cleanPeers_ordered, getPBFTForgingStatus, bind, get_peers, put_peers, interact, ret.
  simpl.
  eexists _, _. split; [reflexivity|]. simpl. fold ps0 acc.
  split; [done|]. split; [lia|]. split; [rewrite Hmax, HM; lia|]. split; [done|].
  intros key. rewrite Hfinal, lookup_omap. unfold probed, probe_fails.
  destruct (ps0 !! key) as [p|]; simpl.
  - destruct (Peer_ping e (tick s) p _) eqn:Hping; split.
    + intros [? ?]. discriminate.
    + intros (p' & [= <-] & Hp'). rewrite Hping in Hp'. discriminate.
    + intros _. exists p. by rewrite Hping.
    + eauto.
  - split; [by intros [? ?]|by intros (? & ? & ?)].
Qed.


Lemma cleanPeers_keeps_responsive_witness :
  ∃ report s',
    cleanPeers_ordered (Sample.env_without "10.0.0.2") true
      ["10.0.0.1"; "10.0.0.3"; "10.0.0.2"]
      {| self := {| config := Sample.config_of []; peers := Sample.heights_9_10_11 |};
         tick := 0 |}
    = Return report s' ∧
    size (peers (self s')) = 2%nat ∧
    responsive report = 2%nat.
Proof.
  destruct (cleanPeers_keeps_responsive (Sample.env_without "10.0.0.2") true
              ["10.0.0.1"; "10.0.0.3"; "10.0.0.2"]
              {| self := {| config := Sample.config_of []; peers := Sample.heights_9_10_11 |};
                 tick := 0 |})
    as (report & s' & Hrun & _ & Hsize & Hresp & _).
  { vm_compute. apply perm_swap. }
  exists report, s'. split; [exact Hrun|]. split; [exact Hsize|exact Hresp].
Defined.

(** ** [downloadBlocks] *)

Lemma getRandomDownloadBlocksPeer_never_throws (fuel : nat) (e : Env) (s : Sys)
    (err : Error) (s' : Sys) :
  getRandomDownloadBlocksPeer fuel e s ≠ Throw err s'.
Proof.
  unfold getRandomDownloadBlocksPeer.
  destruct (filter_not_banned _ _ _ _) as [keys t].
  destruct (peers (self s) !! _); [done|apply getRandomPeer_never_throws].
Qed.







(** ** The node's own address *)

Lemma seed_all_origin (e : Env) (l : list SeedPeer) (ps : gmap string Peer)
    (key : string) (p : Peer) :
  seed_all e l ps !! key = Some p →
  ps !! key = Some p ∨
  ∃ peer, peer ∈ l ∧ seed_ip peer = key ∧ p = Peer_new e (seed_ip peer) (seed_port peer).
Proof.
  unfold seed_all. revert ps. induction l as [|peer l IH]; intros ps Hp; simpl in Hp; [by left|].
  apply IH in Hp as [Hp|(peer' & Hin & Hkey & Hnew)].
  - unfold seed in Hp. rewrite lookup_insert in Hp.
    destruct (decide (seed_ip peer = key)) as [Heq|Hne].
    + right. exists peer. injection Hp as <-. split; [by constructor|done].
    + by left.
  - right. exists peer'. split; [by constructor|done].
Qed.

(** The registry made by the constructor has no entry for the node's own
    address and port. *)
Lemma constructor_excludes_self (e : Env) (cfg : Config) (d : Down) (p : Peer) :
  constructor e cfg = inr d →
  peers d !! "127.0.0.1" = Some p →
  port p ≠ server_port cfg.
Proof.
  unfold constructor. destruct (peers_list cfg) as [l|]; [|done].
  intros [= <-] Hp. simpl in Hp.
  apply seed_all_origin in Hp as [Hp|(peer & Hin & Hkey & ->)].
  - by rewrite lookup_empty in Hp.
  - apply list_elem_of_In, filter_In in Hin as [_ Hkeep].
    unfold not_self in Hkeep. rewrite Hkey in Hkeep. simpl in *.
    by apply negb_true_iff, Z.eqb_neq in Hkeep.
Qed.

(** C4.  The seed list names the node itself, 127.0.0.1 at its own port
    4001, next to three other nodes, one of which does not answer.  The
    constructor leaves the node out; the sweep of [updateNetworkStatus]
    then drops the silent peer, the registry falls below the expected size,
    and the re-seeding from the whole list, which does not filter, puts the
    node's own address and port into the registry, where it stays. *)
Theorem updateNetworkStatus_reseeds_self :
  let e := Sample.env_without "10.0.0.3" in
  let cfg := Sample.config_of Sample.seeds in
  ∃ d s',
    constructor e cfg = inr d ∧
    peers d !! "127.0.0.1" = None ∧
    updateNetworkStatus 5 e {| self := d; tick := 0 |} = Return tt s' ∧
    ∃ p, peers (self s') !! "127.0.0.1" = Some p ∧
         ip p = "127.0.0.1" ∧ port p = server_port cfg.
Proof.
  intros e cfg. eexists _, _.
  split; [evaluate|].
  split; [evaluate|].
  split; [evaluate|].
  eexists. split; [evaluate|]. split; reflexivity.
Qed.

(** * Further properties *)

(** ** Selection of a random peer *)

Lemma set_peers_same (s : Sys) : set_peers (peers (self s)) s = s.
Proof. by destruct s as [[cfg ps] t]. Qed.

Lemma filter_not_banned_length (e : Env) (ps : gmap string Peer) (keys : list string) (t : nat) :
  (length (filter_not_banned e ps keys t).1 ≤ length keys)%nat.
Proof.
  revert t. induction keys as [|key keys IH]; intros t; simpl; [done|].
  specialize (IH (S t)). destruct (filter_not_banned e ps keys (S t)) as [r t'].
  simpl in *. destruct (match ps !! key with Some _ => _ | None => _ end); simpl; lia.
Qed.

(** A key whose peer is never banned passes the ban filter. *)
Lemma filter_not_banned_keeps (e : Env) (ps : gmap string Peer) (keys : list string) (t : nat)
    (key : string) (p : Peer) :
  key ∈ keys → ps !! key = Some p → (∀ i, ban p < Date_getTime e i) →
  key ∈ (filter_not_banned e ps keys t).1.
Proof.
  intros Hin Hp Hfree. revert t. induction keys as [|k keys IH]; intros t; simpl.
  - by apply elem_of_nil in Hin.
  - destruct (filter_not_banned e ps keys (S t)) as [r t'] eqn:Hrec.
    apply elem_of_cons in Hin as [<-|Hin].
    + rewrite Hp, bool_decide_eq_true_2 by done. simpl. by constructor.
    + specialize (IH Hin (S t)). rewrite Hrec in IH. simpl in *.
      destruct (match ps !! k with Some _ => _ | None => _ end); [by constructor|done].
Qed.

(** [n * Math.random() << 0] is a position below [n]. *)
Lemma scale_random_range (n : nat) (r : Q) :
  (0 < n)%nat → Z.of_nat n < 2 ^ 31 → (0 <= r)%Q → (r < 1)%Q →
  0 ≤ JS.scale_random n r < Z.of_nat n.
Proof.
  intros Hn Hsmall Hr0 Hr1. unfold JS.scale_random, JS.trunc.
  set (q := (inject_Z (Z.of_nat n) * r)%Q).
  assert (Hq0 : (0 <= q)%Q).
  { unfold q. apply Qmult_le_0_compat; [|done].
    change 0%Q with (inject_Z 0). rewrite <- Zle_Qle. lia. }
  assert (Hqn : (q < inject_Z (Z.of_nat n))%Q).
  { unfold q. rewrite <- (Qmult_1_r (inject_Z (Z.of_nat n))) at 2.
    apply Qmult_lt_l; [|done].
    change 0%Q with (inject_Z 0). rewrite <- Zlt_Qlt. lia. }
  rewrite (proj2 (Qle_bool_iff 0 q) Hq0).
  assert (Hf0 : 0 ≤ Qfloor q).
  { change 0 with (Qfloor (inject_Z 0)). by apply Qfloor_resp_le. }
  assert (Hfn : Qfloor q < Z.of_nat n).
  { rewrite Zlt_Qlt. eapply Qle_lt_trans; [apply Qfloor_le|done]. }
  rewrite ToInt32_small; lia.
Qed.

(** From a non-empty array of keys a key is drawn. *)
Lemma pick_random_Some (e : Env) (t : nat) (keys : list string) :
  keys ≠ [] → Z.of_nat (length keys) < 2 ^ 31 →
  (0 <= Math_random e t)%Q → (Math_random e t < 1)%Q →
  ∃ key, pick_random e t keys = Some key ∧ key ∈ keys.
Proof.
  intros Hne Hsmall Hr0 Hr1. unfold pick_random.
  assert (Hlen : (0 < length keys)%nat) by (destruct keys; [done|simpl; lia]).
  pose proof (scale_random_range _ _ Hlen Hsmall Hr0 Hr1) as Hrange.
  set (i := JS.scale_random _ _) in *.
  unfold JS.index. destruct (Z.ltb_spec i 0) as [Hneg|_]; [lia|].
  destruct (lookup_lt_is_Some_2 keys (Z.to_nat i)) as [key Hkey]; [lia|].
  exists key. split; [done|]. by eapply list_elem_of_lookup_2.
Qed.

Lemma getRandomPeer_self (fuel : nat) (e : Env) (D : option Z) (s : Sys) (p : Peer) (s' : Sys) :
  getRandomPeer fuel e D s = Return p s' → self s' = self s ∧ (tick s < tick s')%nat.
Proof.
  revert D s. induction fuel as [|fuel IH]; intros D s Hret; [done|].
  rewrite getRandomPeer_unfold in Hret. cbv zeta in Hret.
  destruct (filter_not_banned e (peers (self s)) (Object_keys (peers (self s))) (tick s))
    as [keys t] eqn:Hf.
  destruct (filter_not_banned_spec _ _ _ _ _ _ Hf) as [Ht _]. simpl in Hret.
  destruct (peers (self s) !! JS.ToPropertyKey _) as [q|] eqn:Hq.
  - injection Hret as <- <-. simpl. split; [done|lia].
  - rewrite (delete_id _ _ Hq) in Hret. apply IH in Hret as [Hself Htick].
    rewrite Hself. simpl in *. split; [by destruct s as [[cfg ps] t0]|lia].
Qed.

Lemma getRandomDownloadBlocksPeer_unfold (fuel : nat) (e : Env) (s : Sys) :
  getRandomDownloadBlocksPeer fuel e s =
    let ps := peers (self s) in
    let kt := filter_not_banned e ps (Object_keys ps) (tick s) in
    let random := pick_random e kt.2 (List.filter (not_full ps) kt.1) in
    match ps !! JS.ToPropertyKey random with
    | None =>
        getRandomPeer fuel e None
          (set_peers (delete (JS.ToPropertyKey random) ps) (set_tick (S kt.2) s))
    | Some randomPeer => Return randomPeer (set_tick (S kt.2) s)
    end.
Proof. unfold getRandomDownloadBlocksPeer. by destruct (filter_not_banned _ _ _ _). Qed.

Lemma getRandomDownloadBlocksPeer_self (fuel : nat) (e : Env) (s : Sys) (p : Peer) (s' : Sys) :
  getRandomDownloadBlocksPeer fuel e s = Return p s' →
  self s' = self s ∧ (tick s < tick s')%nat.
Proof.
  rewrite getRandomDownloadBlocksPeer_unfold. cbv zeta.
  destruct (filter_not_banned e (peers (self s)) (Object_keys (peers (self s))) (tick s))
    as [keys t] eqn:Hf.
  destruct (filter_not_banned_spec _ _ _ _ _ _ Hf) as [Ht _]. simpl.
  destruct (peers (self s) !! JS.ToPropertyKey _) as [q|] eqn:Hq.
  - intros [= <- <-]. simpl. split; [done|lia].
  - rewrite (delete_id _ _ Hq). intros Hret. apply getRandomPeer_self in Hret as [Hself Htick].
    rewrite Hself. simpl in *. split; [by destruct s as [[cfg ps] t0]|lia].
Qed.

(** X1.  Selecting a peer never changes the instance: the [delete] of both
    selection methods is only reached for a key that has no entry, so the
    registry, and the configuration with it, is the same after the call. *)
Theorem selection_leaves_instance (fuel : nat) (e : Env) (s : Sys) (p : Peer) (s' : Sys) :
  (∀ D, getRandomPeer fuel e D s = Return p s' → self s' = self s) ∧
  (getRandomDownloadBlocksPeer fuel e s = Return p s' → self s' = self s).
Proof.
  split.
  - intros D Hret. by apply getRandomPeer_self in Hret as [? _].
  - intros Hret. by apply getRandomDownloadBlocksPeer_self in Hret as [? _].
Qed.

Lemma selection_leaves_instance_witness :
  self (set_tick 5 (Sample.sys_of [] [Sample.slow_peer])) = self (Sample.sys_of [] [Sample.slow_peer]).
Proof.
  refine (proj1 (selection_leaves_instance 2 Sample.env_up (Sample.sys_of [] [Sample.slow_peer])
                   Sample.slow_peer _) (Some 100) _).
  vm_compute. reflexivity.
Defined.

(** X2.  A latency bound of 0 is no bound: [if (acceptableDelay)] takes 0
    for false, so that [getRandomPeer(0)] selects as [getRandomPeer()]
    does. *)
Theorem getRandomPeer_zero_is_no_bound (fuel : nat) (e : Env) (s : Sys) :
  getRandomPeer fuel e (Some 0) s = getRandomPeer fuel e None s.
Proof. destruct fuel as [|fuel]; [done|]. by rewrite !getRandomPeer_unfold. Qed.

(** The first attempt of a selection without a bound succeeds when some
    registered peer is never banned. *)
Lemma getRandomPeer_unbounded_returns (fuel : nat) (e : Env) (s : Sys) (key : string) (p : Peer) :
  (∀ t, (0 <= Math_random e t)%Q ∧ (Math_random e t < 1)%Q) →
  Z.of_nat (size (peers (self s))) < 2 ^ 31 →
  peers (self s) !! key = Some p →
  (∀ t, ban p < Date_getTime e t) →
  ∃ q s', getRandomPeer (S fuel) e None s = Return q s'.
Proof.
  intros Hrandom Hsize Hp Hfree. rewrite getRandomPeer_unfold. cbv zeta.
  pose proof (filter_not_banned_length e (peers (self s)) (Object_keys (peers (self s))) (tick s))
    as Hlen.
  pose proof (filter_not_banned_keeps e (peers (self s)) (Object_keys (peers (self s))) (tick s)
                key p) as Hkeep.
  destruct (filter_not_banned e (peers (self s)) (Object_keys (peers (self s))) (tick s))
    as [keys t] eqn:Hf. simpl in *.
  destruct (filter_not_banned_spec _ _ _ _ _ _ Hf) as [_ Hspec].
  assert (Hin : key ∈ keys).
  { apply Hkeep; [|done|done]. apply Object_keys_elem_of. eauto. }
  destruct (pick_random_Some e t keys) as (k & Hk & Hkin).
  - intros ->. by apply elem_of_nil in Hin.
  - unfold Object_keys in Hlen. rewrite length_fmap, length_map_to_list in Hlen. lia.
  - apply Hrandom.
  - apply Hrandom.
  - rewrite Hk. simpl. destruct (Hspec _ Hkin) as [_ (q & _ & Hq & _)].
    rewrite Hq. eauto.
Qed.

(** X3.  Selection succeeds when it can: if [Math.random] answers in [0, 1)
    and some registered peer is never banned, [getRandomPeer()] returns a
    peer at its first attempt, [getRandomPeer(maxDelay)] at its second
    attempt at the latest, and [getRandomDownloadBlocksPeer()] after one
    fall-back to [getRandomPeer()] at the latest. *)
Theorem selection_finds_unbanned (e : Env) (s : Sys) (key : string) (p : Peer) :
  (∀ t, (0 <= Math_random e t)%Q ∧ (Math_random e t < 1)%Q) →
  Z.of_nat (size (peers (self s))) < 2 ^ 31 →
  peers (self s) !! key = Some p →
  (∀ t, ban p < Date_getTime e t) →
  (∃ q s', getRandomPeer 1 e None s = Return q s') ∧
  (∀ D, ∃ q s', getRandomPeer 2 e D s = Return q s') ∧
  (∃ q s', getRandomDownloadBlocksPeer 1 e s = Return q s').
Proof.
  intros Hrandom Hsize Hp Hfree. split; [|split].
  - by eapply getRandomPeer_unbounded_returns.
  - intros D. rewrite getRandomPeer_unfold. cbv zeta.
    destruct (peers (self s) !! JS.ToPropertyKey _) as [q|] eqn:Hq; [eauto|].
    rewrite (delete_id _ _ Hq).
    eapply getRandomPeer_unbounded_returns; simpl; [done| |by rewrite Hp|done].
    by destruct s as [[cfg ps] t0].
  - rewrite getRandomDownloadBlocksPeer_unfold. cbv zeta.
    destruct (peers (self s) !! JS.ToPropertyKey _) as [q|] eqn:Hq; [eauto|].
    rewrite (delete_id _ _ Hq).
    eapply getRandomPeer_unbounded_returns; simpl; [done| |by rewrite Hp|done].
    by destruct s as [[cfg ps] t0].
Qed.

Lemma selection_finds_unbanned_witness :
  ∃ q s', getRandomPeer 2 Sample.env_up (Some 100) (Sample.sys_of [] [Sample.slow_peer])
          = Return q s'.
Proof.
  refine (proj1 (proj2 (selection_finds_unbanned Sample.env_up
            (Sample.sys_of [] [Sample.slow_peer]) "10.0.0.1" Sample.slow_peer _ _ _ _))
          (Some 100)).
  - intros t. split; [discriminate|reflexivity].
  - vm_compute. reflexivity.
  - vm_compute. reflexivity.
  - intros t. simpl. lia.
Defined.

(** X4.  In a registry with no entry under the key "undefined", the peer
    returned by [getRandomDownloadBlocksPeer] is registered and its ban
    ended before a clock reading of the call; when the method returns it
    without falling back to [getRandomPeer], its [downloadSize] is not
    100. *)
Theorem getRandomDownloadBlocksPeer_selection (e : Env) (s : Sys) :
  peers (self s) !! "undefined" = None →
  (∀ fuel p s', getRandomDownloadBlocksPeer fuel e s = Return p s' →
     (∃ key, peers (self s) !! key = Some p) ∧
     (∃ t, (tick s ≤ t < tick s')%nat ∧ ban p < Date_getTime e t)) ∧
  (∀ p s', getRandomDownloadBlocksPeer 0 e s = Return p s' → downloadSize p ≠ Some 100).
Proof.
  intros Hundef. split.
  - intros fuel p s'. rewrite getRandomDownloadBlocksPeer_unfold. cbv zeta.
    destruct (filter_not_banned e (peers (self s)) (Object_keys (peers (self s))) (tick s))
      as [keys t] eqn:Hf.
    destruct (filter_not_banned_spec _ _ _ _ _ _ Hf) as [Ht Hkeep]. simpl.
    destruct (pick_random e t (List.filter (not_full (peers (self s))) keys))
      as [key|] eqn:Hpick; simpl.
    + apply pick_random_elem, list_elem_of_In, filter_In in Hpick as [Hin _].
      apply list_elem_of_In in Hin.
      destruct (Hkeep _ Hin) as [_ (p0 & i & Hp0 & Hi & Hb)].
      rewrite Hp0. intros [= <- <-]. split; [by exists key|].
      exists i. simpl. split; [lia|done].
    + rewrite Hundef, (delete_id _ _ Hundef). intros Hret.
      apply getRandomPeer_returns in Hret as (Hkey & (i & Hi & Hb) & _);
        [|by simpl; rewrite Hundef].
      simpl in *. split; [done|]. exists i. split; [lia|done].
  - intros p s'. rewrite getRandomDownloadBlocksPeer_unfold. cbv zeta.
    destruct (pick_random _ _ _) as [key|] eqn:Hpick; simpl.
    + apply pick_random_elem, list_elem_of_In, filter_In in Hpick as [_ Hfull].
      unfold not_full in Hfull.
      destruct (peers (self s) !! key) as [p0|]; [|done].
      intros [= <- <-]. apply negb_true_iff, bool_decide_eq_false in Hfull. done.
    + by rewrite Hundef.
Qed.

Lemma getRandomDownloadBlocksPeer_selection_witness :
  downloadSize Sample.slow_peer ≠ Some 100.
Proof.
  refine (proj2 (getRandomDownloadBlocksPeer_selection Sample.env_up
                   (Sample.sys_of [] [Sample.slow_peer]) _)
                Sample.slow_peer (set_tick 2 (Sample.sys_of [] [Sample.slow_peer])) _).
  - vm_compute. reflexivity.
  - vm_compute. reflexivity.
Defined.

(** ** The seeds *)

Lemma seed_all_snoc (e : Env) (l : list SeedPeer) (peer : SeedPeer) (ps : gmap string Peer) :
  seed_all e (l ++ [peer]) ps = seed e (seed_all e l ps) peer.
Proof. unfold seed_all. by rewrite foldl_snoc. Qed.

Lemma seed_all_registered (e : Env) (l : list SeedPeer) (ps : gmap string Peer) (peer : SeedPeer) :
  peer ∈ l →
  ∃ peer', peer' ∈ l ∧ seed_ip peer' = seed_ip peer ∧
           seed_all e l ps !! seed_ip peer = Some (Peer_new e (seed_ip peer) (seed_port peer')).
Proof.
  induction l as [|x l IH] using rev_ind; intros Hin.
  - by apply elem_of_nil in Hin.
  - rewrite seed_all_snoc. unfold seed.
    destruct (decide (seed_ip x = seed_ip peer)) as [Heq|Hne].
    + exists x. rewrite Heq, lookup_insert_eq.
      split; [apply elem_of_app; right; by constructor|done].
    + rewrite lookup_insert_ne by done.
      apply elem_of_app in Hin as [Hin|Hin].
      * destruct (IH Hin) as (peer' & Hin' & Hip & Hlook).
        exists peer'. split; [apply elem_of_app; by left|done].
      * apply list_elem_of_singleton in Hin. congruence.
Qed.

Lemma seed_all_other (e : Env) (l : list SeedPeer) (ps : gmap string Peer) (key : string) :
  (∀ peer, peer ∈ l → seed_ip peer ≠ key) →
  seed_all e l ps !! key = ps !! key.
Proof.
  induction l as [|x l IH] using rev_ind; intros Hother; [done|].
  rewrite seed_all_snoc. unfold seed.
  rewrite lookup_insert_ne by (apply Hother, elem_of_app; right; by constructor).
  apply IH. intros peer Hin. apply Hother, elem_of_app. by left.
Qed.

Lemma seed_all_size (e : Env) (l : list SeedPeer) (ps : gmap string Peer) :
  (size (seed_all e l ps) ≤ size ps + length l)%nat.
Proof.
  induction l as [|x l IH] using rev_ind; [simpl; lia|].
  rewrite seed_all_snoc, length_app. unfold seed. simpl.
  rewrite map_size_insert. destruct (seed_all e l ps !! seed_ip x); simpl; lia.
Qed.

Lemma seed_all_keyed (e : Env) (l : list SeedPeer) (ps : gmap string Peer) :
  keyed_by_ip ps → keyed_by_ip (seed_all e l ps).
Proof.
  intros Hps key p Hp. apply seed_all_origin in Hp as [Hp|(peer & _ & <- & ->)]; [|done].
  by apply Hps.
Qed.

Lemma same_ip_same_seed (l : list SeedPeer) (x y : SeedPeer) :
  NoDup (seed_ip <$> l) → x ∈ l → y ∈ l → seed_ip x = seed_ip y → x = y.
Proof.
  induction l as [|z l IH]; intros Hnd Hx Hy Hip.
  - by apply elem_of_nil in Hx.
  - rewrite fmap_cons in Hnd. apply NoDup_cons in Hnd as [Hz Hnd].
    apply elem_of_cons in Hx as [->|Hx]; apply elem_of_cons in Hy as [->|Hy].
    + done.
    + exfalso. apply Hz. rewrite Hip. apply list_elem_of_fmap. eauto.
    + exfalso. apply Hz. rewrite <- Hip. apply list_elem_of_fmap. eauto.
    + by apply IH.
Qed.

(** X5.  What the constructor registers: for a configuration that defines
    a seed list, the registry holds a new peer for exactly the addresses of
    the seeds other than 127.0.0.1 at the node's own port, each stored under
    its own ip with the port of a seed of that address; so it has at most as
    many entries as the list, and none for 127.0.0.1 at the own port. *)
Theorem constructor_registry (e : Env) (cfg : Config) (l : list SeedPeer) :
  peers_list cfg = Some l →
  ∃ d, constructor e cfg = inr d ∧
    config d = cfg ∧
    keyed_by_ip (peers d) ∧
    (∀ key p, peers d !! key = Some p →
       ∃ peer, peer ∈ l ∧ not_self cfg peer = true ∧ seed_ip peer = key ∧
               p = Peer_new e key (seed_port peer)) ∧
    (∀ peer, peer ∈ l → not_self cfg peer = true → is_Some (peers d !! seed_ip peer)) ∧
    (size (peers d) ≤ length l)%nat ∧
    (∀ p, peers d !! "127.0.0.1" = Some p → port p ≠ server_port cfg).
Proof.
  intros Hl. unfold constructor. rewrite Hl. eexists. split; [reflexivity|]. simpl.
  assert (Horigin : ∀ key p,
            seed_all e (List.filter (not_self cfg) l) ∅ !! key = Some p →
            ∃ peer, peer ∈ l ∧ not_self cfg peer = true ∧ seed_ip peer = key ∧
                    p = Peer_new e key (seed_port peer)).
  { intros key p Hp. apply seed_all_origin in Hp as [Hp|(peer & Hin & Hkey & ->)].
    - by rewrite lookup_empty in Hp.
    - apply list_elem_of_In, filter_In in Hin as [Hin Hkeep].
      exists peer. rewrite <- Hkey. by apply list_elem_of_In in Hin. }
  split; [done|]. split; [|split; [done|split; [|split]]].
  - apply seed_all_keyed. intros key p Hp. by rewrite lookup_empty in Hp.
  - intros peer Hin Hkeep.
    destruct (seed_all_registered e (List.filter (not_self cfg) l) ∅ peer)
      as (peer' & _ & _ & Hlook); [|by eauto].
    apply list_elem_of_In, filter_In. by split; [apply list_elem_of_In|].
  - etrans; [apply seed_all_size|]. rewrite map_size_empty. simpl.
    apply List.filter_length_le.
  - intros p Hp. destruct (Horigin _ _ Hp) as (peer & _ & Hkeep & Hkey & ->).
    unfold not_self in Hkeep. rewrite Hkey in Hkeep. simpl in *.
    by apply negb_true_iff, Z.eqb_neq in Hkeep.
Qed.

Lemma constructor_registry_witness :
  ∃ d, constructor Sample.env_up (Sample.config_of Sample.seeds) = inr d ∧
       (size (peers d) ≤ 4)%nat.
Proof.
  destruct (constructor_registry Sample.env_up (Sample.config_of Sample.seeds) Sample.seeds)
    as (d & Hd & _ & _ & _ & _ & Hsize & _).
  - reflexivity.
  - exists d. split; [exact Hd|exact Hsize].
Defined.

(** X6.  Re-seeding, as [updateNetworkStatus] does it: every address of the
    seed list is registered anew, a peer already known under that address
    being replaced by a new one, and every other entry is left as it was;
    the node's own address is not filtered.  When the addresses of the list
    are distinct, each seed is registered with its own port. *)
Theorem reseed_overwrites (e : Env) (s : Sys) (l : list SeedPeer) :
  peers_list (config (self s)) = Some l →
  ∃ s', reseed e s = Return tt s' ∧
    config (self s') = config (self s) ∧ tick s' = tick s ∧
    (∀ peer, peer ∈ l →
       ∃ peer', peer' ∈ l ∧ seed_ip peer' = seed_ip peer ∧
                peers (self s') !! seed_ip peer
                = Some (Peer_new e (seed_ip peer) (seed_port peer'))) ∧
    (NoDup (seed_ip <$> l) →
     ∀ peer, peer ∈ l →
       peers (self s') !! seed_ip peer = Some (Peer_new e (seed_ip peer) (seed_port peer))) ∧
    (∀ key, (∀ peer, peer ∈ l → seed_ip peer ≠ key) →
       peers (self s') !! key = peers (self s) !! key).
Proof.
  intros Hl. unfold reseed, bind, get_config, get_peers, put_peers. rewrite Hl.
  eexists. split; [reflexivity|]. simpl.
  split; [done|]. split; [done|]. split; [|split].
  - intros peer Hin. by apply seed_all_registered.
  - intros Hnd peer Hin.
    destruct (seed_all_registered e l (peers (self s)) peer Hin) as (peer' & Hin' & Hip & Hlook).
    by rewrite (same_ip_same_seed l peer' peer Hnd Hin' Hin Hip) in Hlook.
  - intros key Hother. by apply seed_all_other.
Qed.

Lemma reseed_overwrites_witness :
  ∃ s', reseed Sample.env_up (Sample.sys_of Sample.seeds [Sample.slow_peer]) = Return tt s' ∧
        peers (self s') !! "10.0.0.1" = Some (Peer_new Sample.env_up "10.0.0.1" 4001).
Proof.
  destruct (reseed_overwrites Sample.env_up (Sample.sys_of Sample.seeds [Sample.slow_peer])
              Sample.seeds) as (s' & Hrun & _ & _ & _ & Hdistinct & _).
  - reflexivity.
  - exists s'. split; [exact Hrun|].
    refine (Hdistinct _ {| seed_ip := "10.0.0.1"; seed_port := 4001 |} _).
    + refine (bool_decide_unpack _ _). vm_compute. exact I.
    + unfold Sample.seeds. constructor. constructor.
Defined.

(** ** [discoverPeers] *)

Lemma register_advertised_cases (e : Env) (ps : gmap string Peer) (peer : PeerInfo) :
  (register_advertised e ps peer = ps) ∨
  (register_advertised e ps peer
     = <[info_ip peer := Peer_new e (info_ip peer) (info_port peer)]> ps ∧
   info_status peer = "OK" ∧ ps !! info_ip peer = None ∧ isLocalhost e (info_ip peer) = false).
Proof.
  unfold register_advertised.
  destruct (String.eqb_spec (info_status peer) "OK") as [Hok|_]; simpl; [|by left].
  destruct (ps !! info_ip peer) as [p|] eqn:Hp.
  - rewrite bool_decide_eq_true_2 by eauto. by left.
  - rewrite bool_decide_eq_false_2 by (intros [? ?]; discriminate). simpl.
    destruct (isLocalhost e (info_ip peer)); simpl; [by left|by right].
Qed.

Lemma register_advertised_keeps (e : Env) (ps : gmap string Peer) (peer : PeerInfo)
    (key : string) (p : Peer) :
  ps !! key = Some p → register_advertised e ps peer !! key = Some p.
Proof.
  intros Hp. destruct (register_advertised_cases e ps peer) as [Heq|(Heq & _ & Hfree & _)];
    rewrite Heq; [done|].
  rewrite lookup_insert_ne; [done|]. intros <-. congruence.
Qed.

Lemma register_advertised_new (e : Env) (ps : gmap string Peer) (peer : PeerInfo)
    (key : string) (p : Peer) :
  ps !! key = None → register_advertised e ps peer !! key = Some p →
  info_ip peer = key ∧ info_status peer = "OK" ∧ isLocalhost e key = false ∧
  p = Peer_new e key (info_port peer).
Proof.
  intros Hnone. destruct (register_advertised_cases e ps peer) as [Heq|(Heq & Hok & _ & Hloc)];
    rewrite Heq; [congruence|].
  destruct (decide (info_ip peer = key)) as [<-|Hne].
  - rewrite lookup_insert_eq. by intros [= <-].
  - rewrite lookup_insert_ne by done. congruence.
Qed.

Lemma register_advertised_registers (e : Env) (ps : gmap string Peer) (peer : PeerInfo) :
  info_status peer = "OK" → isLocalhost e (info_ip peer) = false →
  is_Some (register_advertised e ps peer !! info_ip peer).
Proof.
  intros Hok Hloc. unfold register_advertised. rewrite Hok, Hloc. simpl.
  destruct (ps !! info_ip peer) as [p|] eqn:Hp.
  - rewrite bool_decide_eq_true_2 by eauto. simpl. rewrite Hp. eauto.
  - rewrite bool_decide_eq_false_2 by (intros [? ?]; discriminate). simpl.
    rewrite lookup_insert_eq. eauto.
Qed.

(** What one answer to [getPeers] does to the registry. *)
Lemma register_all_spec (e : Env) (list : list PeerInfo) (ps : gmap string Peer) :
  let ps' := foldl (register_advertised e) ps list in
  (∀ key p, ps !! key = Some p → ps' !! key = Some p) ∧
  (∀ key p, ps !! key = None → ps' !! key = Some p →
     isLocalhost e key = false ∧
     ∃ peer, peer ∈ list ∧ info_ip peer = key ∧ info_status peer = "OK" ∧
             p = Peer_new e key (info_port peer)) ∧
  (∀ peer, peer ∈ list → info_status peer = "OK" → isLocalhost e (info_ip peer) = false →
     is_Some (ps' !! info_ip peer)).
Proof.
  induction list as [|x list IH] using rev_ind; cbv zeta.
  - simpl. split; [done|]. split; [|intros peer Hin; by apply elem_of_nil in Hin].
    intros key p Hnone Hsome. congruence.
  - destruct IH as (Hkeep & Hnew & Hall). rewrite foldl_snoc.
    set (ps1 := foldl (register_advertised e) ps list) in *.
    split; [|split].
    + intros key p Hp. by apply register_advertised_keeps, Hkeep.
    + intros key p Hnone Hsome.
      destruct (ps1 !! key) as [p1|] eqn:Hp1.
      * rewrite (register_advertised_keeps _ _ _ _ _ Hp1) in Hsome. injection Hsome as <-.
        destruct (Hnew _ _ Hnone Hp1) as (Hl & peer & Hin & Hrest).
        split; [done|]. exists peer. split; [apply elem_of_app; by left|done].
      * destruct (register_advertised_new _ _ _ _ _ Hp1 Hsome) as (Hip & Hok & Hloc & ->).
        split; [done|]. exists x. split; [apply elem_of_app; right; by constructor|done].
    + intros peer Hin Hok Hloc. apply elem_of_app in Hin as [Hin|Hin].
      * destruct (Hall _ Hin Hok Hloc) as [p Hp].
        rewrite (register_advertised_keeps _ _ _ _ _ Hp). eauto.
      * apply list_elem_of_singleton in Hin as ->. by apply register_advertised_registers.
Qed.

Lemma discoverPeers_answer (fuel : nat) (e : Env) (s : Sys) (ps' : gmap string Peer) (s' : Sys) :
  discoverPeers fuel e s = Return ps' s' →
  peers (self s') = ps' ∧ config (self s') = config (self s) ∧
  ∃ q t list, Peer_getPeers e t q = inr list ∧
              ps' = foldl (register_advertised e) (peers (self s)) list.
Proof.
  revert s. induction fuel as [|fuel IH]; intros s Hret; [done|]. simpl in Hret.
  destruct (getRandomPeer fuel e None s) as [q s1|err s1|] eqn:Hsel.
  - apply getRandomPeer_self in Hsel as [Hself _].
    destruct (Peer_getPeers e (tick s1) q) as [err|list] eqn:Hlist.
    + apply IH in Hret. simpl in Hret. by rewrite Hself in Hret.
    + injection Hret as <- <-. simpl. rewrite Hself. split; [done|]. split; [done|].
      by exists q, (tick s1), list.
  - by apply getRandomPeer_never_throws in Hsel.
  - done.
Qed.

Lemma discoverPeers_never_throws (fuel : nat) (e : Env) (s : Sys) (err : Error) (s' : Sys) :
  discoverPeers fuel e s ≠ Throw err s'.
Proof.
  revert s. induction fuel as [|fuel IH]; intros s; [done|]. simpl.
  destruct (getRandomPeer fuel e None s) as [q s1|err1 s1|] eqn:Hsel.
  - destruct (Peer_getPeers e (tick s1) q); [apply IH|done].
  - apply IH.
  - done.
Qed.



(** ** [acceptNewPeer], beyond its two errors *)

(** The outcomes of [acceptNewPeer], case by case. *)
Lemma acceptNewPeer_cases (e : Env) (peer : Candidate) (s : Sys) :
  let ps := peers (self s) in
  let npeer := Peer_new e (cand_ip peer) (cand_port peer) in
  (acceptNewPeer e peer s = Return tt s ∧
   (is_Some (ps !! cand_ip peer) ∨ is_testnet e = true)) ∨
  (acceptNewPeer e peer s = Throw WrongNetwork s ∧
   cand_nethash peer ≠ network_nethash (config (self s))) ∨
  (acceptNewPeer e peer s = Throw LocalhostRejected s ∧ is_loopback (cand_ip peer) = true) ∨
  (ps !! cand_ip peer = None ∧ is_testnet e = false ∧
   cand_nethash peer = network_nethash (config (self s)) ∧
   is_loopback (cand_ip peer) = false ∧
   ((∃ r, Peer_ping e (tick s) npeer None = inr r ∧
          acceptNewPeer e peer s
          = Return tt (set_peers (<[cand_ip peer := apply_ping r npeer]> ps)
                                 (set_tick (S (tick s)) s))) ∨
    (∃ err, Peer_ping e (tick s) npeer None = inl err ∧
            acceptNewPeer e peer s = Return tt (set_tick (S (tick s)) s)))).
Proof.
  intros ps npeer. unfold acceptNewPeer. fold ps npeer.
  destruct (ps !! cand_ip peer) as [p|] eqn:Hp.
  { rewrite bool_decide_eq_true_2 by eauto. left. eauto. }
  rewrite bool_decide_eq_false_2 by (intros [? ?]; discriminate). simpl.
  destruct (is_testnet e) eqn:Htest; [left; eauto|].
  destruct (String.eqb_spec (cand_nethash peer) (network_nethash (config (self s))))
    as [Hhash|Hhash]; simpl; [|right; left; eauto].
  destruct (is_loopback (cand_ip peer)) eqn:Hloop; [right; right; left; eauto|].
  right. right. right. repeat (split; [done|]).
  destruct (Peer_ping e (tick s) npeer None) as [err|r]; [right|left]; eauto.
Qed.

(** X8.  The only errors of [acceptNewPeer] are the wrong-network and the
    localhost error, raised before anything is done; in particular a
    candidate that does not answer the probe is dropped without an error.
    Whatever the outcome, no registered peer is removed or changed, and the
    only entry that can appear is one for the candidate's address, stored
    under that address with the candidate's port, for a candidate of the
    local network that is not at a loopback address and answered the
    probe. *)
Theorem acceptNewPeer_frame (e : Env) (peer : Candidate) (s : Sys) :
  (∀ err s', acceptNewPeer e peer s = Throw err s' →
     s' = s ∧ (err = WrongNetwork ∨ err = LocalhostRejected)) ∧
  (∀ s', ends_in (acceptNewPeer e peer s) s' →
     config (self s') = config (self s) ∧
     (∀ key p, peers (self s) !! key = Some p → peers (self s') !! key = Some p) ∧
     (∀ key p, peers (self s) !! key = None → peers (self s') !! key = Some p →
        key = cand_ip peer ∧ ip p = key ∧ port p = cand_port peer ∧
        is_loopback key = false ∧
        cand_nethash peer = network_nethash (config (self s)) ∧
        ∃ r, Peer_ping e (tick s) (Peer_new e key (cand_port peer)) None = inr r)).
Proof.
  destruct (acceptNewPeer_cases e peer s)
    as [[Hrun _]|[[Hrun _]|[[Hrun _]|(Hfree & _ & Hhash & Hloop & [(r & Hping & Hrun)|(err & _ & Hrun)])]]];
    rewrite Hrun; (split; [intros err' s'; try done; intros [= <- <-]; eauto|]);
    intros s' Hend; simpl in Hend; subst s'; simpl;
    try (split; [done|]; split; [done|]; intros key p Hnone Hsome; congruence).
  split; [done|]. split.
  - intros key p Hp. rewrite lookup_insert_ne; [done|]. intros <-. congruence.
  - intros key p Hnone Hsome.
    destruct (decide (cand_ip peer = key)) as [<-|Hne].
    + rewrite lookup_insert_eq in Hsome. injection Hsome as <-.
      repeat (split; [done|]). eauto.
    + rewrite lookup_insert_ne in Hsome by done. congruence.
Qed.

Lemma acceptNewPeer_frame_witness :
  Sample.registry [Sample.slow_peer] !! "10.0.0.1" = Some Sample.slow_peer.
Proof.
  refine (proj1 (proj2 (proj2 (acceptNewPeer_frame Sample.env_up
            {| cand_ip := "10.0.0.9"; cand_port := 4001; cand_nethash := "another network" |}
            (Sample.sys_of [] [Sample.slow_peer])) (Sample.sys_of [] [Sample.slow_peer]) _))
          "10.0.0.1" Sample.slow_peer _).
  - vm_compute. reflexivity.
  - vm_compute. reflexivity.
Defined.

(** X9.  Admission is idempotent.  A candidate whose address is registered
    is passed over at once, without a probe and whatever nethash or address
    it presents, and so is every candidate in the testnet mode; hence,
    after a call that registered a candidate, a second call for the same
    address changes nothing. *)
Theorem acceptNewPeer_idempotent (e : Env) (peer : Candidate) (s : Sys) :
  (is_Some (peers (self s) !! cand_ip peer) ∨ is_testnet e = true →
     acceptNewPeer e peer s = Return tt s) ∧
  (∀ s' again,
     acceptNewPeer e peer s = Return tt s' →
     is_Some (peers (self s') !! cand_ip peer) →
     cand_ip again = cand_ip peer →
     acceptNewPeer e again s' = Return tt s').
Proof.
  assert (Hskip : ∀ c s0, is_Some (peers (self s0) !! cand_ip c) ∨ is_testnet e = true →
                          acceptNewPeer e c s0 = Return tt s0).
  { intros c s0 Hor. unfold acceptNewPeer.
    destruct Hor as [Hreg|Htest].
    - by rewrite bool_decide_eq_true_2.
    - rewrite Htest. by rewrite orb_true_r. }
  split; [apply Hskip|].
  intros s' again _ Hreg Hip. apply Hskip. left. by rewrite Hip.
Qed.

Lemma acceptNewPeer_idempotent_witness :
  ∃ s', acceptNewPeer Sample.env_up
          {| cand_ip := "10.0.0.9"; cand_port := 4001; cand_nethash := "6e84d08bd299ed97" |}
          (Sample.sys_of [] []) = Return tt s' ∧
        acceptNewPeer Sample.env_up
          {| cand_ip := "10.0.0.9"; cand_port := 7; cand_nethash := "another network" |}
          s' = Return tt s'.
Proof.
  eexists. split; [vm_compute; reflexivity|].
  refine (proj2 (acceptNewPeer_idempotent Sample.env_up
            {| cand_ip := "10.0.0.9"; cand_port := 4001; cand_nethash := "6e84d08bd299ed97" |}
            (Sample.sys_of [] [])) _ _ _ _ _).
  - vm_compute. reflexivity.
  - vm_compute. eauto.
  - reflexivity.
Defined.

(** ** The sweep, whatever the order of its answers *)

(** X10.  The order in which the pings of a sweep settle is irrelevant:
    for every order, the sweep ends in the same registry and writes the
    same report as when the pings settle in the order they were sent. *)
Theorem cleanPeers_order_irrelevant (e : Env) (fast : bool) (order : list string) (s : Sys) :
  Permutation order (Object_keys (peers (self s))) →
  cleanPeers_ordered e fast order s = cleanPeers e fast s.
Proof.
  intros Hperm. set (ps0 := peers (self s)) in *.
  assert (Hndk : NoDup (Object_keys ps0)) by apply NoDup_fst_map_to_list.
  assert (Hnd : NoDup order) by (by rewrite Hperm).
  assert (Hdomk : ∀ key, key ∈ Object_keys ps0 → is_Some (ps0 !! key)).
  { intros key. apply Object_keys_elem_of. }
  assert (Hdom : ∀ key, key ∈ order → is_Some (ps0 !! key)).
  { intros key Hkey. apply Hdomk. by rewrite <- Hperm. }
  destruct (sweep_run e (tick s) fast ps0 order Hnd Hdom) as (Hlook & Hwrong & _).
  destruct (sweep_run e (tick s) fast ps0 (Object_keys ps0) Hndk Hdomk) as (Hlookk & Hwrongk & _).
  set (acc := foldl _ _ order) in *.
  set (acck := foldl _ _ (Object_keys ps0)) in *.
  assert (Hswept : swept acc = swept acck).
  { apply map_eq. intros key. rewrite Hlook, Hlookk.
    destruct (decide (key ∈ order)) as [Hin|Hout].
    - rewrite decide_True; [done|]. by rewrite <- Hperm.
    - rewrite decide_False; [done|]. by rewrite <- Hperm. }
  assert (Hcount : wrongpeers acc = wrongpeers acck).
  { rewrite Hwrong, Hwrongk. by apply filter_length_Permutation. }
  unfold cleanPeers, cleanPeers_ordered, getPBFTForgingStatus, bind, get_peers, put_peers,
    interact, ret. simpl. fold ps0 acc acck.
  by rewrite Hswept, Hcount.
Qed.

Lemma cleanPeers_order_irrelevant_witness :
  cleanPeers_ordered (Sample.env_without "10.0.0.2") true
    ["10.0.0.1"; "10.0.0.3"; "10.0.0.2"]
    {| self := {| config := Sample.config_of []; peers := Sample.heights_9_10_11 |}; tick := 0 |}
  = cleanPeers (Sample.env_without "10.0.0.2") true
    {| self := {| config := Sample.config_of []; peers := Sample.heights_9_10_11 |}; tick := 0 |}.
Proof.
  apply cleanPeers_order_irrelevant. vm_compute. apply perm_swap.
Defined.

(** ** [downloadBlocks] and the registry *)

Lemma alter_ping_keeps (r : PingReply) (key0 : string) (ps : gmap string Peer)
    (key : string) (p' : Peer) :
  alter (apply_ping r) key0 ps !! key = Some p' →
  ∃ p, ps !! key = Some p ∧ ip p' = ip p ∧ port p' = port p ∧ ban p' = ban p ∧
       downloadSize p' = downloadSize p.
Proof.
  rewrite lookup_alter. destruct (decide (key0 = key)) as [->|Hne].
  - destruct (ps !! key) as [p|]; [|done]. intros [= <-]. by exists p.
  - intros Hp. by exists p'.
Qed.

Lemma downloadBlocks_frame_run (fuel : nat) (e : Env) (h : N) (s s' : Sys) :
  ends_in (downloadBlocks fuel e h s) s' →
  config (self s') = config (self s) ∧
  dom (peers (self s')) = dom (peers (self s)) ∧
  (∀ key p', peers (self s') !! key = Some p' →
     ∃ p, peers (self s) !! key = Some p ∧ ip p' = ip p ∧ port p' = port p ∧ ban p' = ban p ∧
          downloadSize p' = downloadSize p).
Proof.
  revert s. induction fuel as [|fuel IH]; intros s Hend; [done|]. simpl in Hend.
  destruct (getRandomDownloadBlocksPeer fuel e s) as [q s1|err s1|] eqn:Hsel.
  - apply getRandomDownloadBlocksPeer_self in Hsel as [Hself _].
    destruct (Peer_ping e (tick s1) q None) as [err|r].
    + apply IH in Hend. simpl in Hend. by rewrite Hself in Hend.
    + assert (Hs2 : s' = set_tick (S (S (tick s1)))
                           (set_peers (alter (apply_ping r) (ip q) (peers (self s1))) s1)).
      { unfold await in Hend. simpl in Hend.
        destruct (Peer_downloadBlocks e _ _ h); simpl in Hend; by subst s'. }
      subst s'. simpl. rewrite Hself. split; [done|]. split; [by rewrite dom_alter_L|].
      intros key p'. apply alter_ping_keeps.
  - by apply getRandomDownloadBlocksPeer_never_throws in Hsel.
  - done.
Qed.




(** ** [updateNetworkStatus] and [start] *)

Lemma sweep_fold_keyed (e : Env) (t0 : nat) (fast : bool) (ps0 : gmap string Peer)
    (order : list string) (acc : Sweep) :
  keyed_by_ip (swept acc) →
  keyed_by_ip (swept (foldl (sweep_settle e t0 fast ps0) acc order)).
Proof.
  revert acc. induction order as [|key0 order IH]; intros acc Hacc; [done|]. simpl.
  apply IH. unfold sweep_settle.
  assert (Hdel : keyed_by_ip (delete key0 (swept acc))).
  { intros key p Hp. apply lookup_delete_Some in Hp as [_ Hp]. by apply Hacc. }
  destruct (ps0 !! key0) as [p0|]; [|done].
  destruct (Peer_ping e t0 p0 _) as [err|r]; [done|]. simpl.
  intros key p' Hp'. apply alter_ping_keeps in Hp' as (p & Hp & Hip & _).
  rewrite Hip. by apply Hacc.
Qed.

(** A sweep always completes; it keeps the configuration. *)
Lemma cleanPeers_ordered_completes (e : Env) (fast : bool) (order : list string) (s : Sys) :
  ∃ report s',
    cleanPeers_ordered e fast order s = Return report s' ∧
    config (self s') = config (self s) ∧
    (keyed_by_ip (peers (self s)) → keyed_by_ip (peers (self s'))).
Proof.
  unfold cleanPeers_ordered, getPBFTForgingStatus, bind, get_peers, put_peers, interact, ret.
  simpl. eexists _, _. split; [reflexivity|]. simpl. split; [done|].
  intros Hkeyed. by apply sweep_fold_keyed.
Qed.

Lemma discoverPeers_keyed (fuel : nat) (e : Env) (s : Sys) (ps' : gmap string Peer) (s' : Sys) :
  discoverPeers fuel e s = Return ps' s' →
  keyed_by_ip (peers (self s)) → keyed_by_ip (peers (self s')).
Proof.
  intros Hret Hkeyed.
  destruct (discoverPeers_answer _ _ _ _ _ Hret) as (-> & _ & q & t & list & _ & Hps').
  destruct (register_all_spec e list (peers (self s))) as (Hkeep & Hnew & _).
  intros key p Hp. rewrite Hps' in Hp.
  destruct (peers (self s) !! key) as [p0|] eqn:Hp0.
  - rewrite (Hkeep _ _ Hp0) in Hp. injection Hp as <-. by apply Hkeyed.
  - destruct (Hnew _ _ Hp0 Hp) as (_ & peer & _ & _ & _ & ->). done.
Qed.

Lemma reseed_run (e : Env) (s : Sys) (l : list SeedPeer) :
  peers_list (config (self s)) = Some l →
  reseed e s = Return tt (set_peers (seed_all e l (peers (self s))) s).
Proof. intros Hl. unfold reseed, bind, get_config, get_peers, put_peers. by rewrite Hl. Qed.

(** The [try] block of [updateNetworkStatus] for a configuration that
    defines a seed list. *)
Lemma updateNetworkStatus_try_spec (fuel : nat) (e : Env) (s : Sys) (l : list SeedPeer) :
  peers_list (config (self s)) = Some l →
  match updateNetworkStatus_try fuel e s with
  | Return again s1 =>
      config (self s1) = config (self s) ∧
      (keyed_by_ip (peers (self s)) → keyed_by_ip (peers (self s1))) ∧
      (again = false → is_testnet e = false →
         Z.of_nat (length l) - 1 ≤ Z.of_nat (size (peers (self s1)))) ∧
      (is_testnet e = true → again = false ∧ s1 = s)
  | Throw _ _ => False
  | OutOfFuel => True
  end.
Proof.
  intros Hl. unfold updateNetworkStatus_try, bind at 1.
  destruct (is_testnet e) eqn:Htest.
  - unfold ret at 1, bind, get_peers, get_config. rewrite Hl, andb_false_r. unfold ret.
    repeat split; done.
  - unfold bind at 1.
    destruct (discoverPeers fuel e s) as [ps1 s1|err s1|] eqn:Hdisc; [| |done].
    2:{ by apply discoverPeers_never_throws in Hdisc. }
    destruct (discoverPeers_answer _ _ _ _ _ Hdisc) as (_ & Hcfg1 & _).
    pose proof (discoverPeers_keyed _ _ _ _ _ Hdisc) as Hkeyed1.
    unfold bind at 1.
    destruct (cleanPeers_ordered_completes e false (Object_keys (peers (self s1))) s1)
      as (report & s2 & Hclean & Hcfg2 & Hkeyed2).
    unfold cleanPeers at 1. rewrite Hclean. unfold ret at 1, bind, get_peers, get_config.
    rewrite Hcfg2, Hcfg1, Hl, andb_true_r.
    assert (Hlen : length (Object_keys (peers (self s2))) = size (peers (self s2))).
    { unfold Object_keys. by rewrite length_fmap, length_map_to_list. }
    rewrite Hlen. case_bool_decide as Hsmall.
    + rewrite (reseed_run e s2 l) by (by rewrite Hcfg2, Hcfg1). unfold ret. simpl.
      split; [by rewrite Hcfg2|]. split; [|split; [done|done]].
      intros Hkeyed. by apply seed_all_keyed, Hkeyed2, Hkeyed1.
    + unfold ret. split; [by rewrite Hcfg2|]. split; [by intros ?; apply Hkeyed2, Hkeyed1|].
      split; [intros _ _; lia|done].
Qed.

Lemma updateNetworkStatus_spec (fuel : nat) (e : Env) (s : Sys) (l : list SeedPeer) :
  peers_list (config (self s)) = Some l →
  match updateNetworkStatus fuel e s with
  | Return _ s' =>
      config (self s') = config (self s) ∧
      (keyed_by_ip (peers (self s)) → keyed_by_ip (peers (self s'))) ∧
      (is_testnet e = false →
         Z.of_nat (length l) - 1 ≤ Z.of_nat (size (peers (self s'))))
  | Throw _ _ => False
  | OutOfFuel => True
  end.
Proof.
  revert s. induction fuel as [|fuel IH]; intros s Hl; [done|]. simpl. unfold try_catch.
  pose proof (updateNetworkStatus_try_spec fuel e s l Hl) as Htry.
  destruct (updateNetworkStatus_try fuel e s) as [[|] s1|err s1|]; [| |done|done].
  - destruct Htry as (Hcfg & Hkeyed & _ & _).
    specialize (IH s1). rewrite Hcfg in IH. specialize (IH Hl).
    destruct (updateNetworkStatus fuel e s1) as [[] s'|err s'|]; [|done|done].
    destruct IH as (Hcfg' & Hkeyed' & Hsize').
    split; [done|]. split; [by intros ?; apply Hkeyed', Hkeyed|done].
  - destruct Htry as (Hcfg & Hkeyed & Hsize & _). split; [done|]. split; [done|].
    intros Htest. by apply Hsize.
Qed.

(** X12.  For an instance whose configuration defines a seed list,
    [updateNetworkStatus] raises no error; when it returns, the
    configuration is as before and, outside of the testnet mode, the
    registry holds at least as many peers as the seed list has entries,
    less one. *)
Theorem updateNetworkStatus_exit (fuel : nat) (e : Env) (s : Sys) (l : list SeedPeer) :
  peers_list (config (self s)) = Some l →
  (∀ err s', updateNetworkStatus fuel e s ≠ Throw err s') ∧
  (∀ s', updateNetworkStatus fuel e s = Return tt s' →
     config (self s') = config (self s) ∧
     (is_testnet e = false →
        Z.of_nat (length l) - 1 ≤ Z.of_nat (size (peers (self s'))))).
Proof.
  intros Hl. pose proof (updateNetworkStatus_spec fuel e s l Hl) as Hspec.
  split.
  - intros err s' Hthrow. by rewrite Hthrow in Hspec.
  - intros s' Hret. rewrite Hret in Hspec. tauto.
Qed.

Lemma updateNetworkStatus_exit_witness :
  ∃ s', updateNetworkStatus 5 (Sample.env_without "10.0.0.3")
          (Sample.sys_of Sample.seeds [Sample.slow_peer]) = Return tt s' ∧
        4 - 1 ≤ Z.of_nat (size (peers (self s'))).
Proof.
  eexists. split; [vm_compute; reflexivity|].
  refine (proj2 (proj2 (updateNetworkStatus_exit 5 (Sample.env_without "10.0.0.3")
                          (Sample.sys_of Sample.seeds [Sample.slow_peer]) Sample.seeds _)
                   _ _) _).
  - reflexivity.
  - vm_compute. reflexivity.
  - reflexivity.
Defined.

(** X13.  In the testnet mode [updateNetworkStatus] does nothing: for an
    instance whose configuration defines a seed list it returns at once,
    without discovery, sweep or re-seeding, and leaves the instance as it
    was.  [start] does the same in that mode, and in every mode when the
    network is being started. *)
Theorem updateNetworkStatus_testnet (fuel : nat) (e : Env) (s : Sys) (l : list SeedPeer) :
  peers_list (config (self s)) = Some l →
  (is_testnet e = true →
     updateNetworkStatus (S fuel) e s = Return tt s ∧
     start (S fuel) e false s = Return tt s) ∧
  start fuel e true s = Return tt s.
Proof.
  intros Hl. split; [|done]. intros Htest.
  assert (Hrun : updateNetworkStatus (S fuel) e s = Return tt s).
  { simpl. unfold try_catch, updateNetworkStatus_try, bind, ret, get_peers, get_config.
    rewrite Htest, Hl. by rewrite andb_false_r. }
  split; [done|]. unfold start. exact Hrun.
Qed.

Lemma updateNetworkStatus_testnet_witness :
  start 0 Sample.env_up true (Sample.sys_of Sample.seeds []) = Return tt (Sample.sys_of Sample.seeds []).
Proof.
  refine (proj2 (updateNetworkStatus_testnet 0 Sample.env_up (Sample.sys_of Sample.seeds [])
                   Sample.seeds _)).
  reflexivity.
Defined.

(** X14.  The registry stays keyed by ip: when every peer is stored under
    its own ip, as after the constructor, it still is after each method
    that writes to the registry: admission, discovery, a sweep in any
    order, block download, re-seeding and the update of the network
    status. *)
Theorem registry_keyed_by_ip (e : Env) (s : Sys) :
  keyed_by_ip (peers (self s)) →
  (∀ peer s', ends_in (acceptNewPeer e peer s) s' → keyed_by_ip (peers (self s'))) ∧
  (∀ fuel ps' s', discoverPeers fuel e s = Return ps' s' → keyed_by_ip (peers (self s'))) ∧
  (∀ fast order report s',
     cleanPeers_ordered e fast order s = Return report s' → keyed_by_ip (peers (self s'))) ∧
  (∀ fuel h s', ends_in (downloadBlocks fuel e h s) s' → keyed_by_ip (peers (self s'))) ∧
  (∀ s', reseed e s = Return tt s' → keyed_by_ip (peers (self s'))) ∧
  (∀ fuel l s', peers_list (config (self s)) = Some l →
     updateNetworkStatus fuel e s = Return tt s' → keyed_by_ip (peers (self s'))).
Proof.
  intros Hkeyed. repeat split.
  - intros peer s' Hend.
    destruct (acceptNewPeer_cases e peer s)
      as [[Hrun _]|[[Hrun _]|[[Hrun _]|(_ & _ & _ & _ & [(r & _ & Hrun)|(err & _ & Hrun)])]]];
      rewrite Hrun in Hend; simpl in Hend; subst s'; try done.
    simpl. intros key p Hp. rewrite lookup_insert in Hp.
    destruct (decide (cand_ip peer = key)) as [<-|Hne]; [by injection Hp as <-|by apply Hkeyed].
  - intros fuel ps' s' Hret. by eapply discoverPeers_keyed.
  - intros fast order report s' Hret.
    destruct (cleanPeers_ordered_completes e fast order s) as (report' & s2 & Hrun & _ & Hk).
    rewrite Hrun in Hret. injection Hret as _ <-. by apply Hk.
  - intros fuel h s' Hend. apply downloadBlocks_frame_run in Hend as (_ & _ & Hsame).
    intros key p' Hp'. destruct (Hsame _ _ Hp') as (p & Hp & Hip & _).
    rewrite Hip. by apply Hkeyed.
  - intros s'. unfold reseed, bind, get_config, get_peers, put_peers.
    destruct (peers_list (config (self s))) as [l|]; [|done].
    intros [= <-]. simpl. by apply seed_all_keyed.
  - intros fuel l s' Hl Hret. pose proof (updateNetworkStatus_spec fuel e s l Hl) as Hspec.
    rewrite Hret in Hspec. destruct Hspec as (_ & Hk & _). by apply Hk.
Qed.

Lemma registry_keyed_by_ip_witness :
  keyed_by_ip (seed_all Sample.env_up Sample.seeds (Sample.registry [Sample.slow_peer])).
Proof.
  refine (proj1 (proj2 (proj2 (proj2 (proj2 (registry_keyed_by_ip Sample.env_up
            (Sample.sys_of Sample.seeds [Sample.slow_peer]) _)))))
          (set_peers (seed_all Sample.env_up Sample.seeds (Sample.registry [Sample.slow_peer]))
                     (Sample.sys_of Sample.seeds [Sample.slow_peer])) _).
  - intros key p Hp. change (Sample.registry [Sample.slow_peer] !! key = Some p) in Hp.
    unfold Sample.registry in Hp. simpl in Hp.
    apply lookup_insert_Some in Hp as [[<- <-]|[_ Hp]]; [reflexivity|].
    by rewrite lookup_empty in Hp.
  - reflexivity.
Defined.

(** ** The metrics *)

Lemma known_heights_elem_of (ps : gmap string Peer) (h : N) :
  h ∈ known_heights ps ↔
  ∃ key p, ps !! key = Some p ∧ height (state p) = Some h ∧ h ≠ 0%N.
Proof.
  unfold known_heights. rewrite list_elem_of_In, in_map_iff. split.
  - intros (p & Hh & Hin). apply filter_In in Hin as [Hin Hhas].
    apply list_elem_of_In in Hin. unfold Object_values in Hin.
    apply list_elem_of_fmap in Hin as ([key p'] & -> & Hin). simpl in *.
    apply elem_of_map_to_list in Hin. exists key, p'. split; [done|].
    unfold has_height, reported_height in *.
    destruct (height (state p')) as [x|]; [|done]. simpl in Hh. subst x.
    split; [done|]. by apply negb_true_iff, N.eqb_neq in Hhas.
  - intros (key & p & Hp & Hh & Hnz). exists p.
    unfold reported_height, has_height. rewrite Hh. simpl. split; [done|].
    apply filter_In. split.
    + apply list_elem_of_In. unfold Object_values. apply list_elem_of_fmap.
      exists (key, p). split; [done|]. by apply elem_of_map_to_list.
    + rewrite Hh. by apply negb_true_iff, N.eqb_neq.
Qed.

Lemma getNetworkHeight_known (ps : gmap string Peer) :
  getNetworkHeight ps =
    JS.index (JS.sort (known_heights ps)) (JS.half (length (JS.sort (known_heights ps)))).
Proof. reflexivity. Qed.

(** X15.  The network height is a height that some registered peer
    reports, and never 0; for a registry of fewer than 2^32 peers it is
    [undefined] exactly when no registered peer reports a non-zero
    height. *)
Theorem getNetworkHeight_reported (ps : gmap string Peer) :
  (∀ h, getNetworkHeight ps = Some h →
     ∃ key p, ps !! key = Some p ∧ height (state p) = Some h ∧ h ≠ 0%N) ∧
  (Z.of_nat (size ps) < 2 ^ 32 →
     (getNetworkHeight ps = None ↔ ∀ key p, ps !! key = Some p → has_height p = false)).
Proof.
  split.
  - intros h Hh. rewrite getNetworkHeight_known in Hh.
    apply index_elem_of in Hh. unfold JS.sort in Hh. rewrite sort_by_Permutation in Hh.
    by apply known_heights_elem_of.
  - intros Hsize. split; [|apply getNetworkHeight_no_data].
    intros Hnone key p Hp.
    destruct (has_height p) eqn:Hhas; [|done]. exfalso.
    rewrite getNetworkHeight_middle in Hnone by done. cbv zeta in Hnone.
    apply lookup_ge_None in Hnone.
    assert (Hin : reported_height p ∈ known_heights ps).
    { apply known_heights_elem_of. exists key, p. split; [done|].
      unfold has_height, reported_height in *.
      destruct (height (state p)) as [x|]; [|done]. simpl. split; [done|].
      by apply negb_true_iff, N.eqb_neq in Hhas. }
    fold (known_heights ps) in Hnone. unfold JS.sort in Hnone.
    rewrite sort_by_length in Hnone.
    destruct (known_heights ps) as [|x l]; [by apply elem_of_nil in Hin|].
    cbn [length] in Hnone.
    pose proof (Nat.div_lt (S (length l)) 2) as Hlt. lia.
Qed.

Lemma getNetworkHeight_reported_witness :
  ∃ key p, Sample.heights_9_10_11 !! key = Some p ∧ height (state p) = Some 11%N ∧ 11%N ≠ 0%N.
Proof.
  refine (proj1 (getNetworkHeight_reported Sample.heights_9_10_11) 11%N _).
  vm_compute. reflexivity.
Defined.

(** X16.  The network height depends on the reported heights only: two
    registries whose peers report the same non-zero heights, equally
    often, have the same network height, whoever reports them and in
    whatever order the registry lists its peers. *)
Theorem getNetworkHeight_heights_only (ps ps' : gmap string Peer) :
  Permutation (known_heights ps) (known_heights ps') →
  getNetworkHeight ps = getNetworkHeight ps'.
Proof.
  intros Hperm. rewrite !getNetworkHeight_known.
  by rewrite (sort_Permutation_eq _ _ Hperm).
Qed.

Lemma getNetworkHeight_heights_only_witness :
  getNetworkHeight Sample.heights_9_10_11
  = getNetworkHeight
      (Sample.registry [Sample.peer_at "10.0.0.7" (Some 11%N) None true 0 None;
                        Sample.peer_at "10.0.0.8" (Some 9%N) (Some 7) false 0 None;
                        Sample.peer_at "10.0.0.9" (Some 10%N) None false 5 None;
                        Sample.peer_at "10.0.0.6" None None false 5 None]).
Proof.
  apply getNetworkHeight_heights_only. vm_compute.
  apply perm_skip, perm_swap.
Defined.

Lemma div_lengths_range (a b : nat) :
  (a ≤ b)%nat →
  JS.div_lengths a b ≠ JS.Infinity ∧
  (JS.div_lengths a b = JS.NaN ↔ b = 0%nat) ∧
  (∀ q, JS.div_lengths a b = JS.Num q → (0 <= q)%Q ∧ (q <= 1)%Q ∧ (a = 0%nat → q == 0)%Q).
Proof.
  intros Hab. unfold JS.div_lengths. destruct b as [|b].
  - assert (a = 0%nat) as -> by lia. repeat split; try done.
  - split; [done|]. split; [split; [done|lia]|].
    intros q [= <-].
    assert (Hden : Z.pos (Pos.of_nat (S b)) = Z.of_nat (S b)).
    { by rewrite <- positive_nat_Z, Nat2Pos.id. }
    unfold Qle, Qeq. cbn [Qnum Qden]. rewrite Hden.
    repeat split; lia.
Qed.

(** X17.  The forging status is the undefined number NaN or a ratio
    between 0 and 1, never an infinite value; it is NaN exactly when no
    registered peer reports the local slot, and it is 0 when no registered
    peer reports a height, so that the network height is unknown.  The
    call leaves the instance as it was. *)
Theorem getPBFTForgingStatus_range (e : Env) (s : Sys) :
  ∃ status s',
    getPBFTForgingStatus e s = Return status s' ∧
    self s' = self s ∧
    status ≠ JS.Infinity ∧
    (status = JS.NaN ↔
       ∀ key p, peers (self s) !! key = Some p →
                currentSlot (state p) ≠ Some (getSlotNumber e (tick s))) ∧
    (∀ q, status = JS.Num q →
       (0 <= q)%Q ∧ (q <= 1)%Q ∧ (getNetworkHeight (peers (self s)) = None → q == 0)%Q).
Proof.
  unfold getPBFTForgingStatus, bind, get_peers, interact, ret. simpl.
  eexists _, _. split; [reflexivity|]. simpl. split; [done|].
  unfold forging_ratio.
  set (ps := peers (self s)). set (slot := getSlotNumber e (tick s)).
  set (synced := List.filter (λ peer, bool_decide (currentSlot (state peer) = Some slot))
                             (Object_values ps)).
  set (ok := List.filter _ synced).
  pose proof (List.filter_length_le
    (λ peer, forgingAllowed (state peer) &&
             ge_number (height (state peer)) (getNetworkHeight ps)) synced) as Hle.
  fold ok in Hle.
  destruct (div_lengths_range _ _ Hle) as (Hinf & Hnan & Hnum).
  split; [done|]. split.
  - rewrite Hnan. split.
    + intros Hzero key p Hp Hslot.
      assert (Hin : p ∈ synced).
      { apply list_elem_of_In, filter_In. split.
        - apply list_elem_of_In. unfold Object_values. apply list_elem_of_fmap.
          exists (key, p). split; [done|]. by apply elem_of_map_to_list.
        - by apply bool_decide_eq_true_2. }
      destruct synced; [by apply elem_of_nil in Hin|done].
    + intros Hnone. unfold synced. rewrite filter_none; [done|].
      intros p Hin. unfold Object_values in Hin.
      apply list_elem_of_fmap in Hin as ([key p'] & -> & Hin). simpl.
      apply elem_of_map_to_list in Hin. apply bool_decide_eq_false_2. by eapply Hnone.
  - intros q Hq. destruct (Hnum q Hq) as (H0 & H1 & Hz). split; [done|]. split; [done|].
    intros Hunknown. apply Hz. unfold ok. rewrite Hunknown.
    rewrite filter_none; [done|]. intros p _.
    destruct (forgingAllowed (state p)); simpl; [|done].
    by destruct (height (state p)).
Qed.

(** ** [broadcastBlock] as a join *)

Lemma Object_values_empty : Object_values ∅ = [].
Proof. unfold Object_values. by rewrite map_to_list_empty. Qed.

(** X18.  [broadcastBlock] waits for every send: while sends are pending
    and none has failed, the promise it returned is not settled, and it
    holds the acknowledgements received so far.  With an empty registry
    there is nothing to wait for and the promise is fulfilled at once, with
    no acknowledgement. *)
Theorem broadcastBlock_waits (e : Env) (block : Block) (s : Sys) :
  let bpeers := Object_values (peers (self s)) in
  let sent := λ peer, Peer_postBlock e (tick s) peer block in
  (∀ settled,
     NoDup settled →
     (∀ j, j ∈ settled → ∃ pj, bpeers !! j = Some pj ∧ sent pj = inr tt) →
     (length settled < length bpeers)%nat →
     (broadcastBlock e block settled s).1
     = Waiting (gathered settled (length bpeers)) (length bpeers - length settled)) ∧
  (peers (self s) = ∅ → ∀ settled, (broadcastBlock e block settled s).1 = Fulfilled []).
Proof.
  intros bpeers sent. split.
  - intros settled Hnd Hok Hless. unfold broadcastBlock. simpl. fold bpeers.
    rewrite block_sends_fulfilled by done.
    rewrite Promise_all_fulfilled_run; [by rewrite decide_True|done|].
    intros j Hj. destruct (Hok _ Hj) as (pj & Hpj & _). by eapply lookup_lt_Some.
  - intros Hempty settled. unfold broadcastBlock, block_sends. cbn [fst].
    rewrite Hempty, Object_values_empty.
    assert (Hnone : omap (λ i, imap (λ i peer, (i, Peer_postBlock e (tick s) peer block)) []
                               !! i) settled = []).
    { induction settled as [|j settled IH]; [done|]. by destruct j. }
    by rewrite Hnone.
Qed.

Lemma broadcastBlock_waits_witness :
  (broadcastBlock Sample.env_up Sample.genesis [2; 0]%nat
     {| self := {| config := Sample.config_of []; peers := Sample.heights_9_10_11 |}; tick := 0 |}).1
  = Waiting [Some tt; None; Some tt] 1.
Proof.
  refine (proj1 (broadcastBlock_waits Sample.env_up Sample.genesis
            {| self := {| config := Sample.config_of []; peers := Sample.heights_9_10_11 |};
               tick := 0 |}) [2; 0]%nat _ _ _).
  - refine (bool_decide_unpack _ _). vm_compute. exact I.
  - intros j Hj. apply elem_of_cons in Hj as [->|Hj].
    + eexists. split; vm_compute; reflexivity.
    + apply list_elem_of_singleton in Hj as ->. eexists. split; vm_compute; reflexivity.
  - vm_compute. lia.
Defined.

(** ** Retries without an end *)




(** ** Heights of equal width *)
















(** ** [getPeers] *)

Lemma values_ips_keys (ps : gmap string Peer) :
  keyed_by_ip ps → ip <$> Object_values ps = Object_keys ps.
Proof.
  intros Hkeyed. unfold Object_values, Object_keys.
  assert (Hall : ∀ kp, kp ∈ map_to_list ps → ip kp.2 = kp.1).
  { intros [key p] Hin. apply elem_of_map_to_list in Hin. by apply Hkeyed. }
  induction (map_to_list ps) as [|kp l IH]; [done|].
  rewrite !fmap_cons. f_equal; [apply Hall; by constructor|].
  apply IH. intros kp' Hin. apply Hall. by constructor.
Qed.

(** X21.  [getPeers] changes nothing and lists the registry: it returns as
    many peers as are registered, a peer is listed exactly when it is
    registered, and in a registry keyed by ip no two listed peers have the
    same ip. *)
Theorem getPeers_lists_registry (s : Sys) :
  ∃ l, getPeers s = Return l s ∧
       length l = size (peers (self s)) ∧
       (∀ p, p ∈ l ↔ ∃ key, peers (self s) !! key = Some p) ∧
       (keyed_by_ip (peers (self s)) → NoDup (ip <$> l)).
Proof.
  exists (Object_values (peers (self s))). split; [done|]. split; [|split].
  - unfold Object_values. by rewrite length_fmap, length_map_to_list.
  - intros p. unfold Object_values. rewrite list_elem_of_fmap. split.
    + intros ([key p'] & -> & Hin). apply elem_of_map_to_list in Hin. by exists key.
    + intros [key Hp]. exists (key, p). split; [done|]. by apply elem_of_map_to_list.
  - intros Hkeyed. rewrite values_ips_keys by done. apply NoDup_fst_map_to_list.
Qed.

Lemma getPeers_lists_registry_witness :
  ∃ l, getPeers {| self := {| config := Sample.config_of []; peers := Sample.heights_9_10_11 |};
                   tick := 0 |}
       = Return l {| self := {| config := Sample.config_of []; peers := Sample.heights_9_10_11 |};
                     tick := 0 |} ∧
       length l = 3%nat.
Proof.
  destruct (getPeers_lists_registry
              {| self := {| config := Sample.config_of []; peers := Sample.heights_9_10_11 |};
                 tick := 0 |}) as (l & Hrun & Hlen & _).
  exists l. split; [exact Hrun|exact Hlen].
Defined.
